(** * Warband server: a shallow embedding of [apps/server/src/index.ts]

    The server keeps one registry of players and reacts to five kinds of
    client messages and to a timer.  Every handler is embedded as a pure
    function from the registry (and the handler's inputs) to the new
    registry and the list of messages handed to [ws.send].

    Numbers.  A JavaScript [number] is embedded as [num]: a real number or one
    of the three special values [Infinity], [-Infinity], [NaN].  Arithmetic on
    finite values is exact (rounding, overflow and the sign of zero are not
    modelled); the special values follow IEEE 754 as JavaScript does, because
    the code can meet them: [0 / 0] in [resolveBattle], [undefined * n] in
    [handleRecruit], and [JSON.parse] turning the literal [1e999] into
    [Infinity].  [Math.random()] is an explicit argument of the functions that
    call it.

    Because the code computes with doubles, the properties below are chosen
    to hold of doubles as well.  Where arithmetic matters they are stated
    through the code's own operations and comparisons, on whole numbers up
    to 2^53 (which doubles represent, add and subtract exactly), or up to a
    slack that dwarfs the rounding.  Where rounding or overflow decides a
    property, the computation is run on binary64 floats in [Binary64]. *)

From Stdlib Require Import Reals Lra Lia ZArith List String Ascii Bool.
From Stdlib Require Import DecimalString.
From Stdlib Require Floats.SpecFloat.
Import ListNotations.

Local Open Scope R_scope.

(* ================================================================== *)
(** ** JavaScript numbers *)
(* ================================================================== *)

Inductive num : Type :=
| Fin (r : R)
| PInf
| NInf
| NaN.

Definition Rsign (r : R) : comparison :=
  if Rlt_dec 0 r then Gt else if Rlt_dec r 0 then Lt else Eq.

(** Sign of a number that is not [NaN]. *)
Definition num_sign (a : num) : comparison :=
  match a with
  | Fin r => Rsign r
  | PInf => Gt
  | NInf => Lt
  | NaN => Eq
  end.

Definition sign_mul (c d : comparison) : comparison :=
  match c, d with
  | Eq, _ | _, Eq => Eq
  | Gt, Gt | Lt, Lt => Gt
  | _, _ => Lt
  end.

(** The infinity of a given sign; a zero sign stands for an undefined
    result ([Infinity * 0], [0 / 0]). *)
Definition signed_inf (c : comparison) : num :=
  match c with
  | Gt => PInf
  | Lt => NInf
  | Eq => NaN
  end.

Definition js_neg (a : num) : num :=
  match a with
  | Fin r => Fin (- r)
  | PInf => NInf
  | NInf => PInf
  | NaN => NaN
  end.

Definition js_add (a b : num) : num :=
  match a, b with
  | NaN, _ | _, NaN => NaN
  | Fin r, Fin s => Fin (r + s)
  | PInf, NInf | NInf, PInf => NaN
  | PInf, _ | _, PInf => PInf
  | NInf, _ | _, NInf => NInf
  end.

Definition js_sub (a b : num) : num := js_add a (js_neg b).

Definition js_mul (a b : num) : num :=
  match a, b with
  | NaN, _ | _, NaN => NaN
  | Fin r, Fin s => Fin (r * s)
  | _, _ => signed_inf (sign_mul (num_sign a) (num_sign b))
  end.

(** Division; a zero divisor is the positive zero. *)
Definition js_div (a b : num) : num :=
  match a, b with
  | NaN, _ | _, NaN => NaN
  | Fin r, Fin s =>
      if Req_dec_T s 0 then signed_inf (Rsign r) else Fin (r / s)
  | Fin _, _ => Fin 0
  | _, Fin s =>
      signed_inf (sign_mul (num_sign a) (if Rlt_dec s 0 then Lt else Gt))
  | _, _ => NaN
  end.

(** [a < b]; every comparison with [NaN] is false. *)
Definition js_lt (a b : num) : bool :=
  match a, b with
  | NaN, _ | _, NaN => false
  | Fin r, Fin s => if Rlt_dec r s then true else false
  | _, NInf => false
  | NInf, _ => true
  | PInf, _ => false
  | _, PInf => true
  end.

Definition js_gt (a b : num) : bool := js_lt b a.

(** [a <= b]. *)
Definition js_le (a b : num) : bool :=
  match a, b with
  | NaN, _ | _, NaN => false
  | Fin r, Fin s => if Rle_dec r s then true else false
  | NInf, _ => true
  | _, PInf => true
  | _, _ => false
  end.

Definition Math_sqrt (a : num) : num :=
  match a with
  | Fin r => if Rlt_dec r 0 then NaN else Fin (sqrt r)
  | PInf => PInf
  | NInf => NaN
  | NaN => NaN
  end.

Definition Math_floor (a : num) : num :=
  match a with
  | Fin r => Fin (IZR (Zfloor r))
  | _ => a
  end.

(** [Math.round] rounds half-way cases up. *)
Definition Math_round (a : num) : num :=
  match a with
  | Fin r => Fin (IZR (Zfloor (r + / 2)))
  | _ => a
  end.

Definition Math_max (a b : num) : num :=
  match a, b with
  | NaN, _ | _, NaN => NaN
  | PInf, _ | _, PInf => PInf
  | NInf, c | c, NInf => c
  | Fin r, Fin s => Fin (Rmax r s)
  end.

Definition Math_min (a b : num) : num :=
  match a, b with
  | NaN, _ | _, NaN => NaN
  | NInf, _ | _, NInf => NInf
  | PInf, c | c, PInf => c
  | Fin r, Fin s => Fin (Rmin r s)
  end.

(* ================================================================== *)
(** ** Types *)
(* ================================================================== *)

Local Open Scope string_scope.
Local Open Scope list_scope.

Record Position : Type := mkPosition {
  pos_x : num;
  pos_y : num
}.

(** [type] is a string at run time: [handleRecruit] stores whatever key
    passed its lookup. *)
Record Unit : Type := mkUnit {
  utype : string;
  count : num;
  level : num
}.

(** A connection handle; [readyState], which lives in the socket object and
    changes behind the server's back, is an argument of [send]. *)
Definition WebSocket : Type := nat.

Record Player : Type := mkPlayer {
  player_id : string;
  name : string;
  faction : string;
  position : Position;
  gold : num;
  army : list Unit;
  color : string;
  ws : option WebSocket
}.

Inductive TerritoryType : Type := village | castle | city.

Record Territory : Type := mkTerritory {
  terr_id : string;
  terr_name : string;
  terr_position : Position;
  owner : option string;
  terr_type : TerritoryType;
  income : num
}.

(** [Map<string, Player>]: keys in insertion order, one entry per key. *)
Definition PlayerMap : Type := list (string * Player).

(** The [battles] map of the source is never read or written and is left
    out. *)
Record GameState : Type := mkGameState {
  players : PlayerMap;
  territories : list Territory;
  tick : Z
}.

(* ================================================================== *)
(** ** Game constants *)
(* ================================================================== *)

Definition MAP_SIZE : num := Fin 100.

Definition FACTIONS : list string :=
  ["Swadia"; "Vaegirs"; "Khergit"; "Nord"; "Rhodok"; "Sarranid"].

Definition FACTION_COLORS : list string :=
  ["#3b82f6"; "#ef4444"; "#22c55e"; "#f59e0b"; "#8b5cf6"; "#ec4899"].

(** What a property read on the [UNIT_STATS] object yields when it is not
    [undefined]: one of the three entries, or a member inherited from
    [Object.prototype], which has none of the four fields. *)
Inductive StatsValue : Type :=
| stats_entry (attack defense speed cost : R)
| prototype_member.

(** Field reads as they are used in arithmetic: a missing field is
    [undefined], which converts to [NaN]. *)
Definition attack (s : StatsValue) : num :=
  match s with stats_entry a _ _ _ => Fin a | prototype_member => NaN end.
Definition defense (s : StatsValue) : num :=
  match s with stats_entry _ d _ _ => Fin d | prototype_member => NaN end.
Definition speed (s : StatsValue) : num :=
  match s with stats_entry _ _ v _ => Fin v | prototype_member => NaN end.
Definition cost (s : StatsValue) : num :=
  match s with stats_entry _ _ _ c => Fin c | prototype_member => NaN end.

Definition Object_prototype_keys : list string :=
  ["constructor"; "__defineGetter__"; "__defineSetter__"; "hasOwnProperty";
   "__lookupGetter__"; "__lookupSetter__"; "isPrototypeOf";
   "propertyIsEnumerable"; "toString"; "valueOf"; "__proto__";
   "toLocaleString"].

Definition mem_string (k : string) (l : list string) : bool :=
  existsb (String.eqb k) l.

(** [UNIT_STATS[key]]; [None] is [undefined]. *)
Definition UNIT_STATS (key : string) : option StatsValue :=
  if key =? "infantry" then Some (stats_entry 10 15 1 50)
  else if key =? "archer" then Some (stats_entry 15 5 1 75)
  else if key =? "cavalry" then Some (stats_entry 20 10 2 150)
  else if mem_string key Object_prototype_keys then Some prototype_member
  else None.

(* ================================================================== *)
(** ** The player registry *)
(* ================================================================== *)

Fixpoint map_get (k : string) (m : PlayerMap) : option Player :=
  match m with
  | [] => None
  | (k', p) :: m' => if k =? k' then Some p else map_get k m'
  end.

(** [Map.set]: an existing key keeps its place, a new key goes last. *)
Fixpoint map_set (k : string) (p : Player) (m : PlayerMap) : PlayerMap :=
  match m with
  | [] => [(k, p)]
  | (k', q) :: m' =>
      if k =? k' then (k, p) :: m' else (k', q) :: map_set k p m'
  end.

Fixpoint map_delete (k : string) (m : PlayerMap) : PlayerMap :=
  match m with
  | [] => []
  | (k', q) :: m' =>
      if k =? k' then m' else (k', q) :: map_delete k m'
  end.

Definition map_size (m : PlayerMap) : nat := List.length m.

Definition map_values (m : PlayerMap) : list Player := map snd m.

Definition map_keys (m : PlayerMap) : list string := map fst m.

(** A mutation through a reference to the object stored under [k]. *)
Definition map_modify (k : string) (f : Player -> Player) (m : PlayerMap)
  : PlayerMap :=
  match map_get k m with
  | Some p => map_set k (f p) m
  | None => m
  end.

Definition set_players (st : GameState) (m : PlayerMap) : GameState :=
  mkGameState m (territories st) (tick st).

Definition with_position (pos : Position) (p : Player) : Player :=
  mkPlayer (player_id p) (name p) (faction p) pos (gold p) (army p)
           (color p) (ws p).

Definition with_gold (g : num) (p : Player) : Player :=
  mkPlayer (player_id p) (name p) (faction p) (position p) g (army p)
           (color p) (ws p).

Definition with_army (a : list Unit) (p : Player) : Player :=
  mkPlayer (player_id p) (name p) (faction p) (position p) (gold p) a
           (color p) (ws p).

(* ================================================================== *)
(** ** Messages and their delivery *)
(* ================================================================== *)

(** Messages from a client, after [JSON.parse]. *)
Inductive ClientMsg : Type :=
| join (name : string)
| move (x y : num)
| recruit (unitType : string) (count : num)
| attack_msg (targetId : option string) (territoryId : option string)
| chat (text : string)
| unknown (type : string).

(** Messages to clients.  A player payload is a whole [Player] object, as
    [JSON.stringify] would serialise whatever it is given. *)
Inductive ServerMsg : Type :=
| init (playerId : string) (player : Player) (players : list Player)
       (territories : list Territory)
| player_joined (player : Player)
| player_left (playerId : string)
| player_moved (playerId : string) (position : Position)
| recruited (player : Player)
| gold_update (gold : num)
| tick_snapshot (players : list Player)
| chat_event (playerId name faction text : string)
| battle_result (winner loser : string) (attackPower defensePower loot : num)
                (role : string)
| battle_occurred (attacker defender winner : string)
| error (message : string).

(** One call of [ws.send]. *)
Definition Sent : Type := (WebSocket * ServerMsg)%type.

Definition OPEN : nat := 1%nat.

Definition sanitizePlayer (player : Player) : Player :=
  mkPlayer (player_id player) (name player) (faction player)
           (position player) (gold player) (army player) (color player) None.

Section Server.

Variable readyState : WebSocket -> nat.

Definition send (w : WebSocket) (data : ServerMsg) : list Sent :=
  if Nat.eqb (readyState w) OPEN then [(w, data)] else [].

(** [send(player.ws!, data)]: the registry only holds players created by
    [handleJoin], whose [ws] is set; on a missing handle the call raises a
    [TypeError] and nothing is sent. *)
Definition send_to (w : option WebSocket) (data : ServerMsg) : list Sent :=
  match w with
  | Some w' => send w' data
  | None => []
  end.

Definition broadcast (m : PlayerMap) (data : ServerMsg)
           (excludeId : option string) : list Sent :=
  flat_map
    (fun kp : string * Player =>
       let (k, player) := kp in
       let excluded :=
         match excludeId with Some e => k =? e | None => false end in
       if excluded then []
       else match ws player with
            | Some w => send w data
            | None => []
            end)
    m.

(* ================================================================== *)
(** ** Game logic *)
(* ================================================================== *)

Definition getArmySpeed (army : list Unit) : num :=
  match army with
  | [] => Fin 2
  | _ =>
      let hasCavalry :=
        existsb (fun u => (utype u =? "cavalry") && js_gt (count u) (Fin 0))
                army in
      if hasCavalry then Fin 2 else Fin 1
  end.

(** [None] is the [TypeError] raised by [stats.attack] when the unit's type
    is not a property of [UNIT_STATS] at all. *)
Definition getArmyPower (army : list Unit) : option num :=
  fold_left
    (fun total unit =>
       match total, UNIT_STATS (utype unit) with
       | Some t, Some stats =>
           Some (js_add t
                   (js_mul (js_mul (js_add (attack stats) (defense stats))
                                   (count unit))
                           (level unit)))
       | _, _ => None
       end)
    army (Some (Fin 0)).

Record BattleOutcome : Type := mkBattleOutcome {
  winner : string;
  loser : string;
  attackPower : num;
  defensePower : num;
  loot : num
}.

(** [power * (0.8 + Math.random() * 0.4)], [r] being the random value. *)
Definition randomize (power : num) (r : R) : num :=
  js_mul power (js_add (Fin (8 / 10)) (js_mul (Fin r) (Fin (4 / 10)))).

(** The closeness of a fight and the two loss fractions computed from
    it. *)
Definition battleRatio (attackPower defensePower : num) : num :=
  if js_gt attackPower defensePower
  then js_div defensePower attackPower
  else js_div attackPower defensePower.

Definition winnerLossRatio (ratio : num) : num :=
  js_mul ratio (Fin (3 / 10)).

Definition loserLossRatio (ratio : num) : num :=
  js_add (Fin (5 / 10)) (js_mul (js_sub (Fin 1) ratio) (Fin (5 / 10))).

Definition applyLosses (lossRatio : num) (army : list Unit) : list Unit :=
  map (fun unit =>
         mkUnit (utype unit)
                (Math_floor (js_mul (count unit)
                                    (js_sub (Fin 1) lossRatio)))
                (level unit))
      army.

Definition removeEmpty (army : list Unit) : list Unit :=
  filter (fun u => js_gt (count u) (Fin 0)) army.

Definition gold_of (k : string) (m : PlayerMap) : num :=
  match map_get k m with Some p => gold p | None => NaN end.

Definition name_of (k : string) (m : PlayerMap) : string :=
  match map_get k m with Some p => name p | None => "" end.

(** [attacker] and [defender] are references to objects of the registry
    and are embedded as their keys, so that a player attacking itself
    mutates one object twice, as in the source.  [ra] and [rd] are the two
    values of [Math.random()], in call order.  [None] is the [TypeError] of
    [getArmyPower] (or a key without an object, which [handleAttack] never
    passes). *)
Definition resolveBattle (m : PlayerMap) (attacker defender : string)
           (ra rd : R) : option (PlayerMap * BattleOutcome) :=
  match map_get attacker m, map_get defender m with
  | Some a, Some d =>
      match getArmyPower (army a), getArmyPower (army d) with
      | Some pa, Some pd =>
          let attackPower := randomize pa ra in
          let defensePower := randomize pd rd in
          let attackerWins := js_gt attackPower defensePower in
          let ratio := battleRatio attackPower defensePower in
          let winner := if attackerWins then attacker else defender in
          let loser := if attackerWins then defender else attacker in
          let m1 :=
            map_modify winner
              (fun p => with_army
                          (applyLosses (winnerLossRatio ratio) (army p)) p)
              m in
          let m2 :=
            map_modify loser
              (fun p => with_army
                          (applyLosses (loserLossRatio ratio) (army p)) p)
              m1 in
          let m3 :=
            map_modify winner
              (fun p => with_army (removeEmpty (army p)) p) m2 in
          let m4 :=
            map_modify loser
              (fun p => with_army (removeEmpty (army p)) p) m3 in
          let loot := Math_floor (js_mul (gold_of loser m4) (Fin (3 / 10))) in
          let m5 :=
            map_modify winner
              (fun p => with_gold (js_add (gold p) loot) p) m4 in
          let m6 :=
            map_modify loser
              (fun p => with_gold (js_sub (gold p) loot) p) m5 in
          Some (m6,
                mkBattleOutcome (name_of winner m) (name_of loser m)
                                (Math_round attackPower)
                                (Math_round defensePower) loot)
      | _, _ => None
      end
  | _, _ => None
  end.

(* ================================================================== *)
(** ** Message handlers *)
(* ================================================================== *)

(** [r1] and [r2] are the two values of [Math.random()]. *)
Definition handleJoin (st : GameState) (playerId : string) (name : string)
           (w : WebSocket) (r1 r2 : R) : GameState * list Sent :=
  let factionIndex :=
    (map_size (players st) mod List.length FACTIONS)%nat in
  let player :=
    mkPlayer playerId
             (if name =? ""
              then ("Warrior_" ++ substring 0 4 playerId)%string
              else name)
             (nth factionIndex FACTIONS "")
             (mkPosition (js_add (Fin 20) (js_mul (Fin r1) (Fin 60)))
                         (js_add (Fin 20) (js_mul (Fin r2) (Fin 60))))
             (Fin 1000)
             [mkUnit "infantry" (Fin 20) (Fin 1);
              mkUnit "archer" (Fin 10) (Fin 1)]
             (nth factionIndex FACTION_COLORS "")
             (Some w) in
  let m := map_set playerId player (players st) in
  (set_players st m,
   send w (init playerId (sanitizePlayer player)
                (map sanitizePlayer (map_values m)) (territories st))
   ++ broadcast m (player_joined (sanitizePlayer player)) (Some playerId)).

(** The requested target after the speed check of [handleMove]. *)
Definition limitMovement (player : Player) (x y : num) : Position :=
  let dx := js_sub x (pos_x (position player)) in
  let dy := js_sub y (pos_y (position player)) in
  let distance := Math_sqrt (js_add (js_mul dx dx) (js_mul dy dy)) in
  let maxSpeed := getArmySpeed (army player) in
  if js_gt distance (js_mul maxSpeed (Fin 5)) then
    let ratio := js_div (js_mul maxSpeed (Fin 5)) distance in
    mkPosition (js_add (pos_x (position player)) (js_mul dx ratio))
               (js_add (pos_y (position player)) (js_mul dy ratio))
  else mkPosition x y.

Definition clampToMap (target : Position) : Position :=
  mkPosition (Math_max (Fin 0) (Math_min MAP_SIZE (pos_x target)))
             (Math_max (Fin 0) (Math_min MAP_SIZE (pos_y target))).

Definition handleMove (st : GameState) (playerId : string) (x y : num)
  : GameState * list Sent :=
  match map_get playerId (players st) with
  | None => (st, [])
  | Some player =>
      let pos := clampToMap (limitMovement player x y) in
      let m := map_set playerId (with_position pos player) (players st) in
      (set_players st m, broadcast m (player_moved playerId pos) None)
  end.

(** [existing.count += count] on the first stack of the given type. *)
Fixpoint addToExisting (unitType : string) (n : num) (army : list Unit)
  : list Unit :=
  match army with
  | [] => []
  | u :: rest =>
      if utype u =? unitType
      then mkUnit (utype u) (js_add (count u) n) (level u) :: rest
      else u :: addToExisting unitType n rest
  end.

Definition recruitInto (unitType : string) (n : num) (army : list Unit)
  : list Unit :=
  match find (fun u => utype u =? unitType) army with
  | Some _ => addToExisting unitType n army
  | None => army ++ [mkUnit unitType n (Fin 1)]
  end.

Definition handleRecruit (st : GameState) (playerId : string)
           (unitType : string) (n : num) : GameState * list Sent :=
  match map_get playerId (players st) with
  | None => (st, [])
  | Some player =>
      match UNIT_STATS unitType with
      | None => (st, [])
      | Some stats =>
          let cost := js_mul (cost stats) n in
          if js_lt (gold player) cost then
            (st, send_to (ws player) (error "Not enough gold"))
          else
            let player' :=
              with_army (recruitInto unitType n (army player))
                        (with_gold (js_sub (gold player) cost) player) in
            (set_players st (map_set playerId player' (players st)),
             send_to (ws player') (recruited (sanitizePlayer player')))
      end
  end.

(** A [targetId] that is missing or empty is falsy.  A [TypeError] out of
    [resolveBattle] is caught by the message listener: nothing was
    changed or sent before it. *)
Definition handleAttack (st : GameState) (playerId : string)
           (targetId : option string) (ra rd : R)
  : GameState * list Sent :=
  match map_get playerId (players st) with
  | None => (st, [])
  | Some attacker =>
      match targetId with
      | None => (st, [])
      | Some target =>
          if target =? "" then (st, [])
          else
            match map_get target (players st) with
            | None => (st, [])
            | Some defender =>
                let dx := js_sub (pos_x (position attacker))
                                 (pos_x (position defender)) in
                let dy := js_sub (pos_y (position attacker))
                                 (pos_y (position defender)) in
                if js_gt (Math_sqrt (js_add (js_mul dx dx) (js_mul dy dy)))
                         (Fin 5)
                then (st, send_to (ws attacker) (error "Too far to attack"))
                else
                  match resolveBattle (players st) playerId target ra rd with
                  | None => (st, [])
                  | Some (m, battle) =>
                      (set_players st m,
                       send_to (ws attacker)
                         (battle_result (winner battle) (loser battle)
                            (attackPower battle) (defensePower battle)
                            (loot battle) "attacker")
                       ++ send_to (ws defender)
                         (battle_result (winner battle) (loser battle)
                            (attackPower battle) (defensePower battle)
                            (loot battle) "defender")
                       ++ broadcast m
                            (battle_occurred (name attacker) (name defender)
                                             (winner battle))
                            None)
                  end
            end
      end
  end.

Definition handleChat (st : GameState) (playerId : string) (text : string)
  : GameState * list Sent :=
  match map_get playerId (players st) with
  | None => (st, [])
  | Some player =>
      (st,
       broadcast (players st)
         (chat_event playerId (name player) (faction player)
                     (substring 0 200 text))
         None)
  end.

Definition handleMessage (st : GameState) (playerId : string)
           (message : ClientMsg) (w : WebSocket) (r1 r2 : R)
  : GameState * list Sent :=
  match message with
  | join name => handleJoin st playerId name w r1 r2
  | move x y => handleMove st playerId x y
  | recruit unitType n => handleRecruit st playerId unitType n
  | attack_msg targetId _ => handleAttack st playerId targetId r1 r2
  | chat text => handleChat st playerId text
  | unknown _ => (st, [])
  end.

(** The [close] listener of a connection. *)
Definition handleClose (st : GameState) (playerId : string)
  : GameState * list Sent :=
  match map_get playerId (players st) with
  | None => (st, [])
  | Some _ =>
      let m := map_delete playerId (players st) in
      (set_players st m, broadcast m (player_left playerId) None)
  end.

(* ================================================================== *)
(** ** Game loop *)
(* ================================================================== *)

Definition owns (t : Territory) (player : Player) : bool :=
  match owner t with
  | Some f => f =? faction player
  | None => false
  end.

Definition payIncome (ts : list Territory) (player : Player) : Player :=
  with_gold
    (fold_left
       (fun g t => if owns t player
                   then js_add g (js_div (income t) (Fin 10)) else g)
       ts (js_add (gold player) (Fin 50)))
    player.

(** One run of the timer callback. *)
Definition gameLoop (st : GameState) : GameState * list Sent :=
  let t := (tick st + 1)%Z in
  let payday := (t mod 60 =? 0)%Z in
  let m :=
    if payday
    then map (fun kp : string * Player =>
                (fst kp, payIncome (territories st) (snd kp)))
             (players st)
    else players st in
  let updates :=
    if payday
    then flat_map (fun kp : string * Player =>
                     send_to (ws (snd kp)) (gold_update (gold (snd kp))))
                  m
    else [] in
  let snapshot :=
    if (t mod 10 =? 0)%Z
    then broadcast m
           (tick_snapshot (map sanitizePlayer (map_values m))) None
    else [] in
  (mkGameState m (territories st) t, updates ++ snapshot).

End Server.

(* ================================================================== *)
(** ** The server as a transition system *)
(* ================================================================== *)

(** What the server reacts to: a parsed message on a connection (with the
    random draws its handler may make), the closing of a connection, and the
    timer. *)
Inductive Event : Type :=
| message_received (playerId : string) (message : ClientMsg) (w : WebSocket)
                   (r1 r2 : R)
| connection_closed (playerId : string)
| timer_fired.

Definition step (readyState : WebSocket -> nat) (st : GameState) (e : Event)
  : GameState * list Sent :=
  match e with
  | message_received playerId message w r1 r2 =>
      handleMessage readyState st playerId message w r1 r2
  | connection_closed playerId => handleClose readyState st playerId
  | timer_fired => gameLoop readyState st
  end.

(** The player records a message carries. *)
Definition playerRecords (data : ServerMsg) : list Player :=
  match data with
  | init _ player players _ => player :: players
  | player_joined player => [player]
  | recruited player => [player]
  | tick_snapshot players => players
  | _ => []
  end.

(* ================================================================== *)
(** ** Runs of joins *)
(* ================================================================== *)

Definition initialState (ts : list Territory) : GameState :=
  mkGameState [] ts 0.

(** One [join] message: the session it arrives on, the requested name, the
    connection, and the two random draws for the spawn point. *)
Record JoinRequest : Type := mkJoinRequest {
  jr_session : string;
  jr_name : string;
  jr_ws : WebSocket;
  jr_r1 : R;
  jr_r2 : R
}.

(** The player record created by each join of a run, in order. *)
Fixpoint joinedPlayers (readyState : WebSocket -> nat) (st : GameState)
         (reqs : list JoinRequest) : list (option Player) :=
  match reqs with
  | [] => []
  | j :: rest =>
      let st' :=
        fst (handleJoin readyState st (jr_session j) (jr_name j) (jr_ws j)
                        (jr_r1 j) (jr_r2 j)) in
      map_get (jr_session j) (players st')
      :: joinedPlayers readyState st' rest
  end.

Definition factionOf (p : option Player) : string :=
  match p with Some q => faction q | None => "" end.

Definition nameOf (p : option Player) : string :=
  match p with Some q => name q | None => "" end.

(* ================================================================== *)
(** ** Sample sessions *)
(* ================================================================== *)

(** Every connection open. *)
Definition allOpen : WebSocket -> nat := fun _ => OPEN.

Definition aliceId : string := "3f2a9c1e-7b64-4d0a-9e55-0c1d2e3f4a5b".
Definition bobId : string := "c0ffee00-1234-4abc-8def-001122334455".

(** Alice joins without a name, Bob with one; both spawn at (50, 50). *)
Definition aliceJoins : JoinRequest := mkJoinRequest aliceId "" 1%nat (1 / 2) (1 / 2).
Definition bobJoins : JoinRequest := mkJoinRequest bobId "Bob" 2%nat (1 / 2) (1 / 2).

Definition afterJoin (st : GameState) (j : JoinRequest) : GameState :=
  fst (handleJoin allOpen st (jr_session j) (jr_name j) (jr_ws j)
                  (jr_r1 j) (jr_r2 j)).

Definition aliceAlone : GameState := afterJoin (initialState []) aliceJoins.

Definition aliceAndBob : GameState := afterJoin aliceAlone bobJoins.

(** Alice's record once she has joined. *)
Definition alice : Player :=
  mkPlayer aliceId "Warrior_3f2a" "Swadia"
           (mkPosition (Fin (20 + 1 / 2 * 60)) (Fin (20 + 1 / 2 * 60)))
           (Fin 1000)
           [mkUnit "infantry" (Fin 20) (Fin 1);
            mkUnit "archer" (Fin 10) (Fin 1)]
           "#3b82f6" (Some 1%nat).

(** Bob's record once he has joined after Alice. *)
Definition bob : Player :=
  mkPlayer bobId "Bob" "Vaegirs"
           (mkPosition (Fin (20 + 1 / 2 * 60)) (Fin (20 + 1 / 2 * 60)))
           (Fin 1000)
           [mkUnit "infantry" (Fin 20) (Fin 1);
            mkUnit "archer" (Fin 10) (Fin 1)]
           "#ef4444" (Some 2%nat).



(* ================================================================== *)
(** ** Vocabulary of the statements *)
(* ================================================================== *)

(** Euclidean distance between the points [(px, py)] and [(qx, qy)]. *)
Definition euclid (px py qx qy : R) : R :=
  sqrt ((qx - px) * (qx - px) + (qy - py) * (qy - py)).

(** A coordinate that lies on the map. *)
Definition onMap (c : num) : Prop :=
  js_le (Fin 0) c = true /\ js_le c MAP_SIZE = true.

(** Every unit type of the army is a property of [UNIT_STATS]. *)
Definition statsDefined (army : list Unit) : Prop :=
  forall u, In u army -> UNIT_STATS (utype u) <> None.

(** What the embedding takes for granted about a registry entry: it is
    stored under its own id, it has a connection, and the unit types of its
    army are properties of [UNIT_STATS]. *)
Definition entryOk (kp : string * Player) : Prop :=
  player_id (snd kp) = fst kp /\
  ws (snd kp) <> None /\
  statsDefined (army (snd kp)).

Definition registryOk (st : GameState) : Prop := Forall entryOk (players st).

(** The states the server can be in. *)
Inductive reachable (readyState : WebSocket -> nat) (ts : list Territory)
  : GameState -> Prop :=
| reachable_start : reachable readyState ts (initialState ts)
| reachable_step :
    forall st e,
      reachable readyState ts st ->
      reachable readyState ts (fst (step readyState st e)).

(** Case analysis on the comparisons of real numbers that a goal tests. *)
Ltac rdec :=
  repeat match goal with
  | |- context [Rlt_dec ?a ?b] => destruct (Rlt_dec a b); try lra
  | |- context [Rle_dec ?a ?b] => destruct (Rle_dec a b); try lra
  | |- context [Req_dec_T ?a ?b] => destruct (Req_dec_T a b); try lra
  end.

(** Evaluation of a handler on concrete numbers. *)
Ltac js_eval := repeat (cbn; unfold Rsign; rdec).

(* ================================================================== *)
(** ** Start-up and runs of the server *)
(* ================================================================== *)

Definition territoryNames : list string :=
  ["Praven"; "Suno"; "Dhirim"; "Rivacheg"; "Khudan"; "Curaw";
   "Tulga"; "Narra"; "Bariyye"; "Shariz"; "Durquba"; "Ahmerrad";
   "Veluca"; "Jelkala"; "Yalen"; "Sargoth"; "Tihr"; "Wercheg"].

(** The decimal text of a loop index, as a template literal prints it. *)
Definition decimal (i : nat) : string :=
  NilEmpty.string_of_uint (Nat.to_uint i).

(** The loop of [generateTerritories] from index [i] on, [names] being the
    names not yet visited.  [random k] is the value of the [k]-th call of
    [Math.random()]; territory [i] makes calls [2i] and [2i + 1]. *)
Fixpoint territoriesFrom (random : nat -> R) (i : nat) (names : list string)
  : list Territory :=
  match names with
  | [] => []
  | nm :: rest =>
      mkTerritory
        ("territory_" ++ decimal i)%string
        nm
        (mkPosition
           (js_add (Fin 10) (js_mul (Fin (random (2 * i)%nat)) (Fin 80)))
           (js_add (Fin 10) (js_mul (Fin (random (2 * i + 1)%nat)) (Fin 80))))
        (if (i <? 6)%nat then Some (nth i FACTIONS "") else None)
        (if (i <? 6)%nat then city
         else if (i <? 12)%nat then castle else village)
        (if (i <? 6)%nat then Fin 500
         else if (i <? 12)%nat then Fin 200 else Fin 100)
      :: territoriesFrom random (S i) rest
  end.

Definition generateTerritories (random : nat -> R) : list Territory :=
  territoriesFrom random 0 territoryNames.

(** The state the module creates when it is loaded. *)
Definition startState (random : nat -> R) : GameState :=
  mkGameState [] (generateTerritories random) 0.

(** [n] runs of the timer callback with nothing in between. *)
Fixpoint runLoop (readyState : WebSocket -> nat) (n : nat) (st : GameState)
  : GameState :=
  match n with
  | O => st
  | S k => runLoop readyState k (fst (gameLoop readyState st))
  end.

(** The states reached from [st0] through events that satisfy
    [allowed]. *)
Inductive reachableVia (readyState : WebSocket -> nat)
          (allowed : Event -> Prop) (st0 : GameState) : GameState -> Prop :=
| via_start : reachableVia readyState allowed st0 st0
| via_step :
    forall st e,
      reachableVia readyState allowed st0 st ->
      allowed e ->
      reachableVia readyState allowed st0 (fst (step readyState st e)).

Definition finite (a : num) : Prop := exists r, a = Fin r.

(** Events whose numbers are what a well-behaved client and
    [Math.random()] produce: random values in [0, 1), finite coordinates. *)
Definition finiteMoves (e : Event) : Prop :=
  match e with
  | message_received _ (join _) _ r1 r2 => 0 <= r1 < 1 /\ 0 <= r2 < 1
  | message_received _ (move x y) _ _ _ => finite x /\ finite y
  | _ => True
  end.

(** Events whose recruit requests carry a finite count that is not
    negative and a unit type that is not a member of [Object.prototype]. *)
Definition plainRecruits (e : Event) : Prop :=
  match e with
  | message_received _ (recruit unitType n) _ _ _ =>
      (exists c, n = Fin c /\ 0 <= c) /\ ~ In unitType Object_prototype_keys
  | _ => True
  end.

(** Territories whose income is a number from 0 to 1000, as the incomes of
    [generateTerritories] are. *)
Definition incomesOk (ts : list Territory) : Prop :=
  Forall (fun t => exists i, income t = Fin i /\ 0 <= i <= 1000) ts.

(** A player whose position is finite and on the map. *)
Definition placedOnMap (p : Player) : Prop :=
  exists x y,
    position p = mkPosition (Fin x) (Fin y) /\
    0 <= x <= 100 /\ 0 <= y <= 100.

(** A player whose gold is a finite, non-negative amount. *)
Definition solvent (p : Player) : Prop :=
  exists g, gold p = Fin g /\ 0 <= g.

(** The stacks of an army all have level 1 and pairwise different types. *)
Definition armyOk (a : list Unit) : Prop :=
  NoDup (map utype a) /\ Forall (fun u => level u = Fin 1) a.


(** A source of random values that always answers one half. *)
Definition evenDraws : nat -> R := fun _ => 1 / 2.


(** The part of a player that only [handleJoin] writes. *)
Definition identity (p : Player)
  : string * string * string * string * option WebSocket :=
  (player_id p, name p, faction p, color p, ws p).







(** What every registered player looks like, whatever the clients sent: it
    is stored under its own id with its connection, its name is not empty,
    its faction and colour are the entries of one index of the two
    constant tables, and its army has known unit types, one stack per type
    and level 1 throughout. *)
Definition recordOk (kp : string * Player) : Prop :=
  entryOk kp /\
  armyOk (army (snd kp)) /\
  name (snd kp) <> "" /\
  exists i,
    (i < 6)%nat /\
    faction (snd kp) = nth i FACTIONS "" /\
    color (snd kp) = nth i FACTION_COLORS "".

(** The distance [handleMove] computes between the player and the
    requested target, and the budget it compares it with. *)
Definition requestedDistance (player : Player) (x y : num) : num :=
  let dx := js_sub x (pos_x (position player)) in
  let dy := js_sub y (pos_y (position player)) in
  Math_sqrt (js_add (js_mul dx dx) (js_mul dy dy)).



(* ================================================================== *)
(** ** The same arithmetic on binary64 floats *)
(* ================================================================== *)

(** What the server computes with are IEEE 754 binary64 floats.  [num]
    idealises the finite ones as real numbers, which is enough for every
    statement that does not depend on rounding.  To show what rounding and
    overflow do, the arithmetic of [handleMove] and of the loot in
    [resolveBattle] is repeated here on the floats themselves, with the
    standard library's specification of the IEEE operations (round to
    nearest, ties to even). *)
Module Binary64.

Definition double : Type := SpecFloat.spec_float.

Definition prec : Z := 53%Z.
Definition emax : Z := 1024%Z.

(** The double nearest to an integer, as a numeric literal is read; exact
    up to 2^53. *)
Definition ofZ (z : Z) : double :=
  SpecFloat.binary_normalize prec emax z 0 false.

Definition add : double -> double -> double := SpecFloat.SFadd prec emax.
Definition sub : double -> double -> double := SpecFloat.SFsub prec emax.
Definition mul : double -> double -> double := SpecFloat.SFmul prec emax.
Definition div : double -> double -> double := SpecFloat.SFdiv prec emax.
Definition sqrt : double -> double := SpecFloat.SFsqrt prec emax.

(** [a > b]. *)
Definition gt (a b : double) : bool := SpecFloat.SFltb b a.



Definition Math_floor (a : double) : double :=
  match a with
  | SpecFloat.S754_finite s m e =>
      if (0 <=? e)%Z then a
      else
        let q := (Z.pos m / 2 ^ (- e))%Z in
        let whole := (Z.pos m mod 2 ^ (- e) =? 0)%Z in
        if s then ofZ (- (if whole then q else q + 1)) else ofZ q
  | _ => a
  end.

Definition Math_max (a b : double) : double :=
  match SpecFloat.SFcompare a b with
  | None => SpecFloat.S754_nan
  | Some Lt => b
  | Some Gt => a
  | Some Eq =>
      match a, b with
      | SpecFloat.S754_zero sa, SpecFloat.S754_zero sb =>
          SpecFloat.S754_zero (sa && sb)
      | _, _ => a
      end
  end.

Definition Math_min (a b : double) : double :=
  match SpecFloat.SFcompare a b with
  | None => SpecFloat.S754_nan
  | Some Lt => a
  | Some Gt => b
  | Some Eq =>
      match a, b with
      | SpecFloat.S754_zero sa, SpecFloat.S754_zero sb =>
          SpecFloat.S754_zero (sa || sb)
      | _, _ => a
      end
  end.

(** [handleMove], from the player's position, its speed and the requested
    target to the position the player is given (lines 198-212). *)
Definition requestedDistance (px py x y : double) : double :=
  let dx := sub x px in
  let dy := sub y py in
  sqrt (add (mul dx dx) (mul dy dy)).

Definition limitMovement (px py maxSpeed x y : double) : double * double :=
  let dx := sub x px in
  let dy := sub y py in
  let distance := sqrt (add (mul dx dx) (mul dy dy)) in
  if gt distance (mul maxSpeed (ofZ 5)) then
    let ratio := div (mul maxSpeed (ofZ 5)) distance in
    (add px (mul dx ratio), add py (mul dy ratio))
  else (x, y).

Definition clampToMap (target : double * double) : double * double :=
  (Math_max (ofZ 0) (Math_min (ofZ 100) (fst target)),
   Math_max (ofZ 0) (Math_min (ofZ 100) (snd target))).



End Binary64.


(** Alice with two infantry attacks Bob with one archer and one horseman:
    both armies have power 50. *)
Definition skirmish : PlayerMap :=
  [(aliceId, with_army [mkUnit "infantry" (Fin 2) (Fin 1)] alice);
   (bobId, with_army [mkUnit "archer" (Fin 1) (Fin 1);
                      mkUnit "cavalry" (Fin 1) (Fin 1)] bob)].

(** Bob's recruit request for [-Infinity] infantry (the JSON number
    [-1e999]). *)
Definition bobRecruitsInfinity : GameState :=
  fst (handleRecruit allOpen aliceAndBob bobId "infantry" NInf).

(* ================================================================== *)
(** * Properties *)
(* ================================================================== *)

(** ** The registry *)

Lemma map_get_set_same : forall k p m, map_get k (map_set k p m) = Some p.
Proof.
  intros k p m; induction m as [|[k' q] m IH]; simpl.
  - now rewrite String.eqb_refl.
  - destruct (k =? k') eqn:E; simpl; rewrite ?String.eqb_refl, ?E; auto.
Qed.

Lemma map_get_set_other :
  forall k k' p m, k <> k' -> map_get k' (map_set k p m) = map_get k' m.
Proof.
  intros k k' p m Hne; induction m as [|[k0 q] m IH]; simpl.
  - destruct (k' =? k) eqn:E; auto.
    apply String.eqb_eq in E; congruence.
  - destruct (k =? k0) eqn:E; simpl.
    + apply String.eqb_eq in E; subst k0.
      destruct (k' =? k) eqn:E'; auto.
      apply String.eqb_eq in E'; congruence.
    + now rewrite IH.
Qed.

Lemma map_get_In :
  forall k p m, map_get k m = Some p -> In (k, p) m.
Proof.
  intros k p m; induction m as [|[k' q] m IH]; simpl; [discriminate|].
  destruct (k =? k') eqn:E; intros H.
  - apply String.eqb_eq in E; inversion H; subst; auto.
  - auto.
Qed.

Lemma map_get_None_keys :
  forall k m, map_get k m = None <-> ~ In k (map_keys m).
Proof.
  intros k m; induction m as [|[k' q] m IH]; simpl.
  - tauto.
  - destruct (k =? k') eqn:E.
    + apply String.eqb_eq in E; subst; split; [discriminate | tauto].
    + apply String.eqb_neq in E; rewrite IH; split.
      * intros H [H'|H']; [congruence | tauto].
      * tauto.
Qed.

Lemma map_set_fresh :
  forall k p m, ~ In k (map_keys m) -> map_set k p m = m ++ [(k, p)].
Proof.
  intros k p m; induction m as [|[k' q] m IH]; simpl; intros H; auto.
  destruct (k =? k') eqn:E.
  - apply String.eqb_eq in E; subst; tauto.
  - rewrite IH; tauto.
Qed.

Lemma map_set_present_keys :
  forall k p m, In k (map_keys m) -> map_keys (map_set k p m) = map_keys m.
Proof.
  intros k p m; induction m as [|[k' q] m IH]; simpl; [tauto|].
  intros H; destruct (k =? k') eqn:E; simpl.
  - apply String.eqb_eq in E; now subst.
  - apply String.eqb_neq in E; rewrite IH; [reflexivity|].
    destruct H; [congruence | assumption].
Qed.

Lemma map_size_set_fresh :
  forall k p m,
    ~ In k (map_keys m) -> map_size (map_set k p m) = S (map_size m).
Proof.
  intros k p m H; rewrite map_set_fresh by assumption.
  unfold map_size; rewrite length_app; simpl; lia.
Qed.

Lemma map_keys_set_fresh :
  forall k p m,
    ~ In k (map_keys m) -> map_keys (map_set k p m) = map_keys m ++ [k].
Proof.
  intros k p m H; rewrite map_set_fresh by assumption.
  unfold map_keys; now rewrite map_app.
Qed.

(** ** Joining *)

Lemma handleJoin_creates :
  forall rs st playerId nm w r1 r2,
    exists p,
      map_get playerId (players (fst (handleJoin rs st playerId nm w r1 r2)))
      = Some p /\
      faction p = nth (map_size (players st) mod 6) FACTIONS "" /\
      name p = (if nm =? "" then "Warrior_" ++ substring 0 4 playerId
                else nm)%string.
Proof.
  intros; unfold handleJoin; simpl.
  rewrite map_get_set_same; eexists; split; [reflexivity|]; simpl; auto.
Qed.

Lemma handleJoin_players :
  forall rs st playerId nm w r1 r2,
    ~ In playerId (map_keys (players st)) ->
    let st' := fst (handleJoin rs st playerId nm w r1 r2) in
    map_size (players st') = S (map_size (players st)) /\
    map_keys (players st') = map_keys (players st) ++ [playerId].
Proof.
  intros; unfold st', handleJoin; simpl; split.
  - now apply map_size_set_fresh.
  - now apply map_keys_set_fresh.
Qed.

(** From any registry, joins by new and pairwise different sessions are
    served round-robin, starting at the registry's size. *)
Lemma joinedPlayers_nth :
  forall rs reqs st n d,
    NoDup (map jr_session reqs) ->
    (forall j, In j reqs -> ~ In (jr_session j) (map_keys (players st))) ->
    (n < List.length reqs)%nat ->
    let created := nth n (joinedPlayers rs st reqs) None in
    let j := nth n reqs d in
    factionOf created
    = nth ((map_size (players st) + n) mod 6) FACTIONS "" /\
    nameOf created
    = (if jr_name j =? "" then "Warrior_" ++ substring 0 4 (jr_session j)
       else jr_name j)%string.
Proof.
  intros rs reqs; induction reqs as [|j0 rest IH]; intros st n d Hnd Hfresh Hn;
    [simpl in Hn; lia|].
  cbn [map] in Hnd; inversion Hnd as [|s l Hnotin Hnd']; subst.
  cbn [List.length] in Hn.
  destruct n as [|n]; cbn [joinedPlayers nth].
  - destruct (handleJoin_creates rs st (jr_session j0) (jr_name j0) (jr_ws j0)
                                 (jr_r1 j0) (jr_r2 j0)) as (p & Hp & Hf & Hn').
    rewrite Hp; simpl; rewrite Hf, Hn', Nat.add_0_r; auto.
  - destruct (handleJoin_players rs st (jr_session j0) (jr_name j0) (jr_ws j0)
                                 (jr_r1 j0) (jr_r2 j0)) as (Hsz & Hk);
      [apply Hfresh; left; reflexivity|].
    specialize (IH (fst (handleJoin rs st (jr_session j0) (jr_name j0)
                                    (jr_ws j0) (jr_r1 j0) (jr_r2 j0)))
                   n d Hnd').
    rewrite Hsz in IH.
    replace (map_size (players st) + S n)%nat
      with (S (map_size (players st)) + n)%nat by lia.
    apply IH; [|lia].
    intros j Hj; rewrite Hk, in_app_iff; simpl.
    intros [H|[H|[]]].
    + revert H; apply Hfresh; right; assumption.
    + apply Hnotin; rewrite H; apply in_map; assumption.
Qed.

(** C9, as stated, fails: the faction index is the number of players in the
    registry when the join is handled, not the number of joins so far.  A
    session that sends [join] twice is stored once, so the third join of the
    run below is handled with one player registered and becomes a Vaegir,
    where [FACTIONS[2]], Khergit, was promised. *)
Lemma join_index_is_registry_size :
  factionOf (nth 2 (joinedPlayers allOpen (initialState [])
                                  [aliceJoins; aliceJoins; bobJoins]) None)
  <> nth (2 mod 6) FACTIONS "".
Proof. vm_compute; discriminate. Qed.

(** A departure has the same effect: Alice joins and leaves, and Bob, the
    second to join, is served with an empty registry and becomes a
    Swadian. *)
Lemma departure_rewinds_the_rotation :
  factionOf
    (map_get bobId
       (players
          (afterJoin (fst (handleClose allOpen aliceAlone aliceId))
                     bobJoins)))
  = "Swadia".
Proof. vm_compute; reflexivity. Qed.

(** C9 (amended): in a run of joins from server start in which every join
    comes from a different session and nobody leaves, the Nth join
    (0-indexed) is assigned [FACTIONS[N mod 6]]; the index is the size of the
    registry when the join is handled.  A player joining with an empty name
    is named [Warrior_] followed by the first 4 characters of its session
    id. *)
Theorem join_round_robin_and_default_name :
  forall rs ts reqs n d,
    NoDup (map jr_session reqs) ->
    (n < List.length reqs)%nat ->
    let created := nth n (joinedPlayers rs (initialState ts) reqs) None in
    let j := nth n reqs d in
    factionOf created = nth (n mod 6) FACTIONS "" /\
    (jr_name j = "" ->
     nameOf created = ("Warrior_" ++ substring 0 4 (jr_session j))%string).
Proof.
  intros rs ts reqs n d Hnd Hn created j.
  destruct (joinedPlayers_nth rs reqs (initialState ts) n d Hnd) as [Hf Hname];
    [intros ? _ []| assumption |].
  split; [exact Hf|].
  intros He; fold j in Hname; rewrite He in Hname; exact Hname.
Qed.

Lemma join_round_robin_and_default_name_witness :
  NoDup (map jr_session [aliceJoins; bobJoins]) /\
  (0 < List.length [aliceJoins; bobJoins])%nat /\
  factionOf (nth 0 (joinedPlayers allOpen (initialState [])
                                  [aliceJoins; bobJoins]) None)
  = nth (0 mod 6) FACTIONS "" /\
  (jr_name (nth 0 [aliceJoins; bobJoins] aliceJoins) = "" ->
   nameOf (nth 0 (joinedPlayers allOpen (initialState [])
                                [aliceJoins; bobJoins]) None)
   = ("Warrior_"
        ++ substring 0 4 (jr_session (nth 0 [aliceJoins; bobJoins]
                                          aliceJoins)))%string).
Proof.
  assert (Hnd : NoDup (map jr_session [aliceJoins; bobJoins])).
  { repeat constructor; simpl; intuition discriminate. }
  assert (Hlen : (0 < List.length [aliceJoins; bobJoins])%nat)
    by (simpl; lia).
  split; [exact Hnd|]. split; [exact Hlen|].
  exact (join_round_robin_and_default_name allOpen [] [aliceJoins; bobJoins]
           0%nat aliceJoins Hnd Hlen).
Defined.

(** ** Recruiting *)







(** C7, as stated, fails: a unit type that [UNIT_STATS] does not know makes
    [handleRecruit] return without sending anything, so the requester gets no
    error message. *)
Lemma recruit_unknown_type_sends_no_error :
  ~ ((exists text,
        In (1%nat, error text)
           (snd (handleRecruit allOpen aliceAlone aliceId "dragon" (Fin 1))))
     /\ fst (handleRecruit allOpen aliceAlone aliceId "dragon" (Fin 1))
        = aliceAlone).
Proof.
  change (handleRecruit allOpen aliceAlone aliceId "dragon" (Fin 1))
    with (aliceAlone, @nil Sent).
  intros [[text []] _].
Qed.

Lemma UNIT_STATS_undefined :
  forall key,
    key <> "infantry" -> key <> "archer" -> key <> "cavalry" ->
    ~ In key Object_prototype_keys ->
    UNIT_STATS key = None.
Proof.
  intros key Hi Ha Hc Hp; unfold UNIT_STATS.
  apply String.eqb_neq in Hi, Ha, Hc; rewrite Hi, Ha, Hc.
  destruct (mem_string key Object_prototype_keys) eqn:E; [|reflexivity].
  exfalso; apply Hp.
  unfold mem_string in E; apply existsb_exists in E.
  destruct E as (k & Hin & Heq); apply String.eqb_eq in Heq; now subst.
Qed.

(** C7 (amended): a recruit request whose unit type names no property of
    the stats table (none of infantry, archer, cavalry, and no member
    inherited from [Object.prototype]) is dropped silently: no message is
    sent, not even an error, and no state is mutated. *)
Theorem recruit_unknown_type_is_ignored :
  forall rs st playerId unitType n,
    unitType <> "infantry" -> unitType <> "archer" ->
    unitType <> "cavalry" ->
    ~ In unitType Object_prototype_keys ->
    handleRecruit rs st playerId unitType n = (st, []).
Proof.
  intros rs st playerId unitType n Hi Ha Hc Hp; unfold handleRecruit.
  rewrite (UNIT_STATS_undefined unitType Hi Ha Hc Hp).
  destruct (map_get playerId (players st)); reflexivity.
Qed.

Lemma recruit_unknown_type_is_ignored_witness :
  "dragon" <> "infantry" /\ "dragon" <> "archer" /\ "dragon" <> "cavalry" /\
  ~ In "dragon" Object_prototype_keys /\
  handleRecruit allOpen aliceAlone aliceId "dragon" (Fin 1)
  = (aliceAlone, []).
Proof.
  assert (Hi : "dragon" <> "infantry") by discriminate.
  assert (Ha : "dragon" <> "archer") by discriminate.
  assert (Hc : "dragon" <> "cavalry") by discriminate.
  assert (Hp : ~ In "dragon" Object_prototype_keys)
    by (simpl; intuition discriminate).
  repeat (split; [assumption|]).
  exact (recruit_unknown_type_is_ignored allOpen aliceAlone aliceId "dragon"
                                         (Fin 1) Hi Ha Hc Hp).
Defined.

(** The names left out of the statement above do mutate the state: the
    lookup finds a member of [Object.prototype], whose [cost] is [undefined],
    so the price is [NaN], the gold check passes, the gold becomes [NaN] and
    a stack of that name joins the army. *)
Lemma recruit_inherited_key_corrupts_player :
  exists p,
    map_get aliceId
      (players (fst (handleRecruit allOpen aliceAlone aliceId "toString"
                                   (Fin 1))))
    = Some p /\
    gold p = NaN /\
    In (mkUnit "toString" (Fin 1) (Fin 1)) (army p).
Proof.
  eexists; split; [reflexivity|]; split; [reflexivity|].
  simpl; auto.
Qed.

(** C8 at its failing input: recruiting zero cavalry is accepted (the price
    is 0) and, Alice having no cavalry yet, appends a stack whose count is
    0. *)
Theorem recruit_zero_appends_empty_stack :
  exists p,
    map_get aliceId
      (players (fst (handleRecruit allOpen aliceAlone aliceId "cavalry"
                                   (Fin 0))))
    = Some p /\
    In (mkUnit "cavalry" (Fin 0) (Fin 1)) (army p).
Proof.
  unfold handleRecruit.
  change (map_get aliceId (players aliceAlone))
    with (Some (mkPlayer aliceId "Warrior_3f2a" "Swadia"
                  (mkPosition
                     (js_add (Fin 20) (js_mul (Fin (1 / 2)) (Fin 60)))
                     (js_add (Fin 20) (js_mul (Fin (1 / 2)) (Fin 60))))
                  (Fin 1000)
                  [mkUnit "infantry" (Fin 20) (Fin 1);
                   mkUnit "archer" (Fin 10) (Fin 1)]
                  "#3b82f6" (Some 1%nat))).
  cbn; rdec; cbn.
  eexists; split; [reflexivity|]; simpl; auto.
Qed.

(** ** Moving *)

Lemma getArmySpeed_cases :
  forall army, getArmySpeed army = Fin 1 \/ getArmySpeed army = Fin 2.
Proof.
  intros [|u rest]; [right; reflexivity|].
  unfold getArmySpeed.
  destruct (existsb _ (u :: rest)); auto.
Qed.

Lemma sum_of_squares_nonneg : forall a b : R, 0 <= a * a + b * b.
Proof. intros; nra. Qed.

Lemma quotient_in_unit_interval :
  forall a b, 0 <= a -> a <= b -> 0 < b -> 0 <= a / b <= 1.
Proof.
  intros a b Ha Hab Hb.
  assert (H : a / b * b = a) by (field; lra).
  assert (0 < / b) by (apply Rinv_0_lt_compat; assumption).
  unfold Rdiv in *; split; nra.
Qed.

Lemma limitMovement_finite :
  forall player px py x y v,
    position player = mkPosition (Fin px) (Fin py) ->
    getArmySpeed (army player) = Fin v ->
    0 < v ->
    limitMovement player (Fin x) (Fin y)
    = if Rlt_dec (v * 5) (euclid px py x y)
      then mkPosition
             (Fin (px + (x - px) * (v * 5 / euclid px py x y)))
             (Fin (py + (y - py) * (v * 5 / euclid px py x y)))
      else mkPosition (Fin x) (Fin y).
Proof.
  intros player px py x y v Hpos Hv Hvpos.
  unfold limitMovement; rewrite Hpos, Hv; cbn.
  pose proof (sum_of_squares_nonneg (x + - px) (y + - py)) as Hs.
  destruct (Rlt_dec _ 0) as [Hneg|_]; [lra|].
  cbn; unfold euclid, Rminus.
  destruct (Rlt_dec (v * 5) _) as [Hfar|Hnear]; [|reflexivity].
  cbn; destruct (Req_dec_T _ 0) as [Hz|_]; [lra|reflexivity].
Qed.

Lemma clampToMap_finite :
  forall tx ty,
    clampToMap (mkPosition (Fin tx) (Fin ty))
    = mkPosition (Fin (Rmax 0 (Rmin 100 tx))) (Fin (Rmax 0 (Rmin 100 ty))).
Proof. reflexivity. Qed.


Lemma clamp_in_range : forall t, 0 <= Rmax 0 (Rmin 100 t) <= 100.
Proof.
  intros t; unfold Rmax, Rmin.
  destruct (Rle_dec 100 t); destruct (Rle_dec 0 _); lra.
Qed.






Lemma onMap_clamped : forall t, onMap (Fin (Rmax 0 (Rmin 100 t))).
Proof.
  intros t; pose proof (clamp_in_range t) as H; unfold onMap, MAP_SIZE; cbn.
  rdec; auto.
Qed.

(** The clamp does its job on every target but [NaN], which it lets
    through. *)
Lemma clampToMap_onMap :
  forall target,
    pos_x target <> NaN -> pos_y target <> NaN ->
    onMap (pos_x (clampToMap target)) /\ onMap (pos_y (clampToMap target)).
Proof.
  assert (Hclamp : forall c, c <> NaN ->
                     onMap (Math_max (Fin 0) (Math_min MAP_SIZE c))).
  { intros [t| | |] Hc; try congruence; cbn.
    - apply onMap_clamped.
    - rewrite Rmax_right by lra; unfold onMap, MAP_SIZE; cbn; rdec; auto.
    - unfold onMap, MAP_SIZE; cbn; rdec; auto. }
  intros [tx ty] Hx Hy; cbn in Hx, Hy; unfold clampToMap; cbn [pos_x pos_y].
  split; apply Hclamp; assumption.
Qed.

Lemma clampToMap_NaN :
  forall ty, pos_x (clampToMap (mkPosition NaN ty)) = NaN.
Proof. reflexivity. Qed.

(** A request with finite coordinates, from a player whose position is
    finite, ends on the map. *)
Lemma move_finite_stays_on_map :
  forall rs st playerId player px py x y,
    map_get playerId (players st) = Some player ->
    position player = mkPosition (Fin px) (Fin py) ->
    exists p,
      map_get playerId
        (players (fst (handleMove rs st playerId (Fin x) (Fin y))))
      = Some p /\
      onMap (pos_x (position p)) /\ onMap (pos_y (position p)).
Proof.
  intros rs st playerId player px py x y Hget Hpos.
  assert (Hv : exists v, getArmySpeed (army player) = Fin v /\ 0 < v).
  { destruct (getArmySpeed_cases (army player)) as [H|H]; rewrite H;
      eexists; split; try reflexivity; lra. }
  destruct Hv as (v & Hv & Hvpos).
  unfold handleMove; rewrite Hget; cbn [fst players set_players].
  rewrite map_get_set_same; eexists; split; [reflexivity|].
  cbn [position with_position].
  rewrite (limitMovement_finite player px py x y v Hpos Hv Hvpos).
  destruct (Rlt_dec _ _); rewrite clampToMap_finite; cbn [pos_x pos_y];
    split; apply onMap_clamped.
Qed.

(** C2 at its failing input: Alice stands at (50, 50) and asks to move to
    [x = Infinity] (the JSON number [1e999]), [y = 50].  The distance is
    infinite, the ratio is [5 / Infinity = 0], the rescaled [x] is
    [50 + Infinity * 0 = NaN], and [Math.min] and [Math.max] return [NaN]:
    her position is no longer between 0 and [MAP_SIZE]. *)
Theorem move_to_infinity_leaves_the_map :
  exists p,
    map_get aliceId
      (players (fst (handleMove allOpen aliceAlone aliceId PInf (Fin 50))))
    = Some p /\
    pos_x (position p) = NaN /\
    ~ onMap (pos_x (position p)).
Proof.
  unfold handleMove.
  change (map_get aliceId (players aliceAlone)) with (Some alice).
  cbv beta iota zeta; cbn [fst players set_players].
  rewrite map_get_set_same; eexists; split; [reflexivity|].
  assert (H : pos_x (position
                (with_position
                   (clampToMap (limitMovement alice PInf (Fin 50))) alice))
              = NaN) by (js_eval; reflexivity).
  rewrite H; split; [reflexivity|].
  unfold onMap; cbn; intros [? _]; discriminate.
Qed.



(** ** Battles *)

Lemma map_get_modify_same :
  forall k f m, map_get k (map_modify k f m) = option_map f (map_get k m).
Proof.
  intros k f m; unfold map_modify.
  destruct (map_get k m) eqn:E; simpl; [apply map_get_set_same | exact E].
Qed.

Lemma map_get_modify_other :
  forall k k' f m, k <> k' -> map_get k' (map_modify k f m) = map_get k' m.
Proof.
  intros k k' f m Hne; unfold map_modify.
  destruct (map_get k m); [now apply map_get_set_other | reflexivity].
Qed.

(** What [resolveBattle] does to two different players. *)
Lemma resolveBattle_distinct :
  forall m attacker defender a d pa pd ra rd,
    attacker <> defender ->
    map_get attacker m = Some a ->
    map_get defender m = Some d ->
    getArmyPower (army a) = Some pa ->
    getArmyPower (army d) = Some pd ->
    let ap := randomize pa ra in
    let dp := randomize pd rd in
    let ratio := battleRatio ap dp in
    let attackerWins := js_gt ap dp in
    let wid := if attackerWins then attacker else defender in
    let lid := if attackerWins then defender else attacker in
    let w := if attackerWins then a else d in
    let l := if attackerWins then d else a in
    let loot := Math_floor (js_mul (gold l) (Fin (3 / 10))) in
    exists m',
      resolveBattle m attacker defender ra rd
      = Some (m', mkBattleOutcome (name w) (name l) (Math_round ap)
                                  (Math_round dp) loot) /\
      map_get wid m'
      = Some (with_gold (js_add (gold w) loot)
                (with_army
                   (removeEmpty (applyLosses (winnerLossRatio ratio) (army w)))
                   w)) /\
      map_get lid m'
      = Some (with_gold (js_sub (gold l) loot)
                (with_army
                   (removeEmpty (applyLosses (loserLossRatio ratio) (army l)))
                   l)) /\
      forall k, k <> attacker -> k <> defender -> map_get k m' = map_get k m.
Proof.
  intros m attacker defender a d pa pd ra rd Hne Ha Hd Hpa Hpd
         ap dp ratio attackerWins wid lid w l loot.
  assert (Hne' : defender <> attacker) by congruence.
  unfold resolveBattle; rewrite Ha, Hd, Hpa, Hpd.
  fold ap dp; fold ratio; fold attackerWins.
  unfold gold_of, name_of.
  subst wid lid w l loot; destruct attackerWins.
  - eexists; split; [|split; [|split]].
    + repeat (rewrite ?map_get_modify_same, ?map_get_modify_other by assumption).
      rewrite Ha, Hd; cbn [option_map gold with_army with_gold name].
      reflexivity.
    + repeat (rewrite ?map_get_modify_same, ?map_get_modify_other by assumption).
      rewrite Ha; reflexivity.
    + repeat (rewrite ?map_get_modify_same, ?map_get_modify_other by assumption).
      rewrite Hd; reflexivity.
    + intros k Hk1 Hk2.
      repeat (rewrite ?map_get_modify_other by congruence). reflexivity.
  - eexists; split; [|split; [|split]].
    + repeat (rewrite ?map_get_modify_same, ?map_get_modify_other by assumption).
      rewrite Ha, Hd; cbn [option_map gold with_army with_gold name].
      reflexivity.
    + repeat (rewrite ?map_get_modify_same, ?map_get_modify_other by assumption).
      rewrite Hd; reflexivity.
    + repeat (rewrite ?map_get_modify_same, ?map_get_modify_other by assumption).
      rewrite Ha; reflexivity.
    + intros k Hk1 Hk2.
      repeat (rewrite ?map_get_modify_other by congruence). reflexivity.
Qed.

Lemma getArmyPower_defined :
  forall army, statsDefined army -> exists p, getArmyPower army = Some p.
Proof.
  unfold getArmyPower; intros army.
  generalize (Fin 0) as t.
  induction army as [|u rest IH]; intros t Hdef; simpl.
  - eauto.
  - destruct (UNIT_STATS (utype u)) as [stats|] eqn:E.
    + apply IH; intros u' Hu'; apply Hdef; right; assumption.
    + exfalso; apply (Hdef u); [left; reflexivity | assumption].
Qed.

Lemma floor_share_bounds :
  forall g, 0 <= g ->
    0 <= IZR (Zfloor (g * (3 / 10))) /\ IZR (Zfloor (g * (3 / 10))) <= g.
Proof.
  intros g Hg; split.
  - apply IZR_le, Zfloor_lub; simpl; lra.
  - pose proof (Zfloor_bound (g * (3 / 10))); lra.
Qed.



Lemma randomize_finite :
  forall p r, randomize (Fin p) r = Fin (p * (8 / 10 + r * (4 / 10))).
Proof. reflexivity. Qed.

(** The ratio of a fight between powers that are not negative. *)
Lemma battleRatio_finite :
  forall ap dp,
    0 <= ap -> 0 <= dp ->
    (0 < ap \/ 0 < dp ->
     exists r, battleRatio (Fin ap) (Fin dp) = Fin r /\ 0 <= r <= 1) /\
    (ap = 0 -> dp = 0 -> battleRatio (Fin ap) (Fin dp) = NaN).
Proof.
  intros ap dp Hap Hdp; unfold battleRatio, js_gt; cbn; split.
  - intros Hpos; destruct (Rlt_dec dp ap) as [Hwin|Hlose]; cbn.
    + destruct (Req_dec_T ap 0); [lra|].
      eexists; split; [reflexivity|].
      apply quotient_in_unit_interval; lra.
    + destruct (Req_dec_T dp 0); [lra|].
      eexists; split; [reflexivity|].
      apply quotient_in_unit_interval; lra.
  - intros -> ->; unfold Rsign; rdec; reflexivity.
Qed.


(** Two infinite powers, neither negative and both strictly positive, have
    no ratio either: [Infinity / Infinity] is [NaN]. *)
Lemma infinite_powers_give_no_ratio :
  forall ra rd,
    0 <= ra -> 0 <= rd ->
    randomize PInf ra = PInf /\
    battleRatio (randomize PInf ra) (randomize PInf rd) = NaN.
Proof.
  intros ra rd Hra Hrd.
  assert (H : forall r, 0 <= r -> randomize PInf r = PInf).
  { intros r Hr; unfold randomize; cbn; unfold Rsign; rdec; reflexivity. }
  rewrite !H by assumption; split; reflexivity.
Qed.



(** Negative powers break the order too: with powers -25 and -50 the
    attacker wins, the ratio is 2, and the winner loses 60% where the loser
    loses nothing. *)
Lemma negative_powers_cost_the_winner_more :
  js_gt (Fin (- 25)) (Fin (- 50)) = true /\
  battleRatio (Fin (- 25)) (Fin (- 50)) = Fin (- 50 / - 25) /\
  js_le (winnerLossRatio (Fin (- 50 / - 25)))
        (loserLossRatio (Fin (- 50 / - 25))) = false.
Proof.
  unfold battleRatio, js_gt; js_eval; auto.
Qed.

Lemma floor_is :
  forall (z : Z) (x : R),
    IZR z <= x < IZR z + 1 -> Math_floor (Fin x) = Fin (IZR z).
Proof. intros z x H; cbn; do 2 f_equal; apply Zfloor_eq; exact H. Qed.

(** The order of the two fractions does not carry over to the units
    lost, because every count is floored.  In [skirmish] both powers are
    50; with equal draws the fight is a tie, Bob wins with ratio 1, each of
    his two stacks becomes [floor(1 * 0.7) = 0] and is dropped, while
    Alice, the loser, keeps [floor(2 * 0.5) = 1] of her 2 infantry. *)
Lemma flooring_can_cost_the_winner_more :
  exists m' outcome,
    resolveBattle skirmish aliceId bobId (1 / 2) (1 / 2) = Some (m', outcome) /\
    winner outcome = "Bob" /\
    loser outcome = "Warrior_3f2a" /\
    option_map army (map_get bobId m') = Some [] /\
    option_map army (map_get aliceId m')
    = Some [mkUnit "infantry" (Fin 1) (Fin 1)].
Proof.
  assert (Hne : aliceId <> bobId) by discriminate.
  set (a := with_army [mkUnit "infantry" (Fin 2) (Fin 1)] alice).
  set (d := with_army [mkUnit "archer" (Fin 1) (Fin 1);
                       mkUnit "cavalry" (Fin 1) (Fin 1)] bob).
  assert (Hpa : getArmyPower (army a) = Some (Fin 50))
    by (cbn; do 2 f_equal; lra).
  assert (Hpd : getArmyPower (army d) = Some (Fin 50))
    by (cbn; do 2 f_equal; lra).
  destruct (resolveBattle_distinct skirmish aliceId bobId a d _ _
              (1 / 2) (1 / 2) Hne eq_refl eq_refl Hpa Hpd)
    as (m' & Hres & Hw & Hl & _).
  assert (Htie : js_gt (randomize (Fin 50) (1 / 2)) (randomize (Fin 50) (1 / 2))
                 = false)
    by (unfold js_gt; cbn; rdec; reflexivity).
  assert (Hratio : battleRatio (randomize (Fin 50) (1 / 2))
                               (randomize (Fin 50) (1 / 2)) = Fin 1).
  { unfold battleRatio; rewrite Htie; cbn; rdec; f_equal; field. }
  rewrite Htie, Hratio in *.
  exists m'; eexists; split; [exact Hres|].
  cbn [winner loser]; split; [reflexivity|]. split; [reflexivity|].
  rewrite Hw, Hl; cbn [option_map army with_army with_gold a d].
  assert (H0 : Math_floor (js_mul (Fin 1) (js_sub (Fin 1) (winnerLossRatio (Fin 1))))
               = Fin (IZR 0))
    by (apply floor_is; lra).
  assert (H1 : Math_floor (js_mul (Fin 2) (js_sub (Fin 1) (loserLossRatio (Fin 1))))
               = Fin (IZR 1))
    by (apply floor_is; lra).
  unfold applyLosses; cbn [map utype count level].
  rewrite H0, H1.
  unfold removeEmpty, js_gt; cbn; rdec; auto.
Qed.

(** Infinite numbers reach the battle as well.  Bob's request for
    [-Infinity] infantry is accepted (the price, [-Infinity], does not
    exceed his gold) and leaves him with [Infinity] gold.  When Alice then
    attacks him, the loot is [Infinity], Bob's gold becomes
    [Infinity - Infinity = NaN], and both armies are left with a stack of
    [Infinity] units: their powers are [Infinity], neither negative and
    both positive, and the next fight between them has the ratio
    [Infinity / Infinity = NaN]. *)
Lemma infinite_recruit_spoils_gold_and_powers :
  exists b m' outcome a' b',
    map_get bobId (players bobRecruitsInfinity) = Some b /\
    gold b = PInf /\
    resolveBattle (players bobRecruitsInfinity) aliceId bobId (1 / 2) (1 / 2)
    = Some (m', outcome) /\
    loot outcome = PInf /\
    map_get aliceId m' = Some a' /\
    map_get bobId m' = Some b' /\
    gold a' = PInf /\
    gold b' = NaN /\
    getArmyPower (army a') = Some PInf /\
    getArmyPower (army b') = Some PInf /\
    battleRatio (randomize PInf (1 / 2)) (randomize PInf (1 / 2)) = NaN.
Proof.
  assert (Hne : aliceId <> bobId) by discriminate.
  assert (Hplayers :
            players bobRecruitsInfinity
            = [(aliceId, alice);
               (bobId,
                with_army [mkUnit "infantry" NInf (Fin 1);
                           mkUnit "archer" (Fin 10) (Fin 1)]
                          (with_gold PInf bob))]).
  { unfold bobRecruitsInfinity, handleRecruit.
    change (map_get bobId (players aliceAndBob)) with (Some bob).
    js_eval; reflexivity. }
  set (b := with_army [mkUnit "infantry" NInf (Fin 1);
                       mkUnit "archer" (Fin 10) (Fin 1)]
                      (with_gold PInf bob)) in *.
  assert (Hb : map_get bobId (players bobRecruitsInfinity) = Some b)
    by (rewrite Hplayers; reflexivity).
  assert (Ha : map_get aliceId (players bobRecruitsInfinity) = Some alice)
    by (rewrite Hplayers; reflexivity).
  assert (Hgold : gold b = PInf) by reflexivity.
  assert (Harmy : army b = [mkUnit "infantry" NInf (Fin 1);
                            mkUnit "archer" (Fin 10) (Fin 1)]) by reflexivity.
  assert (Hpa : getArmyPower (army alice) = Some (Fin 700))
    by (cbn; do 2 f_equal; lra).
  assert (Hpb : getArmyPower (army b) = Some NInf).
  { rewrite Harmy; js_eval; reflexivity. }
  destruct (resolveBattle_distinct (players bobRecruitsInfinity) aliceId bobId
              alice b _ _ (1 / 2) (1 / 2) Hne Ha Hb Hpa Hpb)
    as (m' & Hres & Hw & Hl & _).
  assert (Hr : randomize NInf (1 / 2) = NInf) by (js_eval; reflexivity).
  assert (Hwin : js_gt (randomize (Fin 700) (1 / 2)) (randomize NInf (1 / 2))
                 = true) by (rewrite Hr; reflexivity).
  assert (Hratio : battleRatio (randomize (Fin 700) (1 / 2))
                               (randomize NInf (1 / 2)) = NInf).
  { unfold battleRatio; rewrite Hwin, Hr; js_eval; reflexivity. }
  rewrite Hwin, Hratio, Hgold, Harmy in *.
  exists b, m'; do 3 eexists.
  split; [exact Hb|]. split; [reflexivity|]. split; [exact Hres|].
  split; [js_eval; reflexivity|].
  split; [exact Hw|]. split; [exact Hl|].
  split; [js_eval; reflexivity|].
  split; [js_eval; reflexivity|].
  split; [js_eval; reflexivity|].
  split; [js_eval; reflexivity|].
  unfold battleRatio; js_eval; reflexivity.
Qed.




(** After a battle between two different players, every stack left in
    either army has a strictly positive count. *)
Lemma battle_prunes_empty_stacks :
  forall m attacker defender a d ra rd m' outcome,
    attacker <> defender ->
    map_get attacker m = Some a ->
    map_get defender m = Some d ->
    resolveBattle m attacker defender ra rd = Some (m', outcome) ->
    forall k p u,
      k = attacker \/ k = defender ->
      map_get k m' = Some p ->
      In u (army p) ->
      js_gt (count u) (Fin 0) = true /\ count u <> Fin 0.
Proof.
  intros m attacker defender a d ra rd m' outcome Hne Ha Hd Hres k p u Hk Hp Hu.
  assert (Hpruned : exists army0, army p = removeEmpty army0).
  { pose proof Hres as Hres'.
    unfold resolveBattle in Hres'; rewrite Ha, Hd in Hres'.
    destruct (getArmyPower (army a)) as [pa|] eqn:Hpa; [|discriminate].
    destruct (getArmyPower (army d)) as [pd|] eqn:Hpd; [|discriminate].
    clear Hres'.
    destruct (resolveBattle_distinct m attacker defender a d pa pd ra rd
                Hne Ha Hd Hpa Hpd) as (m'' & Hres'' & Hw & Hl & _).
    rewrite Hres'' in Hres; inversion Hres; subst m''.
    destruct (js_gt (randomize pa ra) (randomize pd rd));
      destruct Hk as [-> | ->]; rewrite Hp in *;
      match goal with
      | H : Some p = Some _ |- _ => inversion H; eexists; reflexivity
      end. }
  destruct Hpruned as [army0 Harmy]; rewrite Harmy in Hu.
  unfold removeEmpty in Hu; apply filter_In in Hu; destruct Hu as [_ Hu].
  split; [exact Hu|].
  intros Hz; rewrite Hz in Hu; revert Hu; unfold js_gt; cbn; rdec; discriminate.
Qed.





(** ** What goes over the wire *)

Lemma send_data :
  forall rs w data sent, In sent (send rs w data) -> snd sent = data.
Proof.
  intros rs w data sent; unfold send.
  destruct (Nat.eqb _ _); simpl; [intros [<-|[]]; reflexivity | tauto].
Qed.

Lemma send_to_data :
  forall rs w data sent, In sent (send_to rs w data) -> snd sent = data.
Proof.
  intros rs [w|] data sent; simpl; [apply send_data | tauto].
Qed.

Lemma broadcast_data :
  forall rs m data excludeId sent,
    In sent (broadcast rs m data excludeId) -> snd sent = data.
Proof.
  intros rs m data excludeId sent; unfold broadcast.
  rewrite in_flat_map; intros ([k p] & _ & H).
  destruct (match excludeId with Some e => k =? e | None => false end);
    [destruct H|].
  destruct (ws p); [eapply send_data; eassumption | destruct H].
Qed.

Lemma map_get_values :
  forall k p m, map_get k m = Some p -> In p (map_values m).
Proof.
  intros k p m H; apply map_get_In in H.
  unfold map_values; apply in_map_iff; exists (k, p); auto.
Qed.

Lemma sanitizePlayer_ws : forall p, ws (sanitizePlayer p) = None.
Proof. reflexivity. Qed.

(** C6: whatever the server reacts to (any client message, a closing
    connection, the timer), every player record inside every message it
    sends is the sanitized copy of a player [q] of the registry: it has
    [q]'s id, name, faction, position, gold, army and colour, and its [ws]
    field is absent.  No message carries a connection handle. *)
Theorem wire_players_are_sanitized :
  forall rs st e sent p,
    In sent (snd (step rs st e)) ->
    In p (playerRecords (snd sent)) ->
    ws p = None /\
    exists q,
      In q (map_values (players (fst (step rs st e)))) /\
      p = sanitizePlayer q /\
      p = mkPlayer (player_id q) (name q) (faction q) (position q) (gold q)
                   (army q) (color q) None /\
      player_id p = player_id q /\
      name p = name q /\
      faction p = faction q /\
      position p = position q /\
      gold p = gold q /\
      army p = army q /\
      color p = color q.
Proof.
  intros rs st e sent p Hsent Hp.
  assert (Hgoal : exists q,
             In q (map_values (players (fst (step rs st e)))) /\
             p = sanitizePlayer q);
    [| destruct Hgoal as (q & Hq & ->); split; [reflexivity|];
       exists q; repeat split; assumption].
  destruct e as [playerId message w r1 r2 | playerId | ]; cbn [step] in *.
  - destruct message as [nm | x y | unitType n | targetId territoryId
                        | text | ty]; cbn [handleMessage] in *.
    + (* join *)
      unfold handleJoin in *; cbn [fst snd players set_players] in *.
      set (player := mkPlayer playerId _ _ _ _ _ _ _) in *.
      assert (Hin : In player
                      (map_values (map_set playerId player (players st))))
        by (eapply map_get_values, map_get_set_same).
      apply in_app_or in Hsent; destruct Hsent as [Hs|Hs].
      * apply send_data in Hs; rewrite Hs in Hp; cbn in Hp.
        destruct Hp as [<-|Hp]; [eauto|].
        apply in_map_iff in Hp; destruct Hp as (q & <- & Hq); eauto.
      * apply broadcast_data in Hs; rewrite Hs in Hp; cbn in Hp.
        destruct Hp as [<-|[]]; eauto.
    + (* move *)
      unfold handleMove in *.
      destruct (map_get playerId (players st)); cbn in Hsent; [|tauto].
      apply broadcast_data in Hsent; rewrite Hsent in Hp; destruct Hp.
    + (* recruit *)
      unfold handleRecruit in *.
      destruct (map_get playerId (players st)) as [player|];
        [|destruct Hsent].
      destruct (UNIT_STATS unitType) as [stats|]; [|destruct Hsent].
      destruct (js_lt _ _); cbn [fst snd players set_players] in *.
      * apply send_to_data in Hsent; rewrite Hsent in Hp; destruct Hp.
      * apply send_to_data in Hsent; rewrite Hsent in Hp; cbn in Hp.
        destruct Hp as [<-|[]].
        eexists; split; [|reflexivity].
        eapply map_get_values, map_get_set_same.
    + (* attack *)
      unfold handleAttack in *.
      destruct (map_get playerId (players st)) as [attacker|];
        [|destruct Hsent].
      destruct targetId as [target|]; [|destruct Hsent].
      destruct (target =? ""); [destruct Hsent|].
      destruct (map_get target (players st)) as [defender|];
        [|destruct Hsent].
      destruct (js_gt _ _).
      * apply send_to_data in Hsent; rewrite Hsent in Hp; destruct Hp.
      * destruct (resolveBattle _ _ _ _ _) as [[m battle]|];
          [|destruct Hsent].
        cbn [snd] in Hsent.
        apply in_app_or in Hsent; destruct Hsent as [Hs|Hs];
          [|apply in_app_or in Hs; destruct Hs as [Hs|Hs]].
        -- apply send_to_data in Hs; rewrite Hs in Hp; destruct Hp.
        -- apply send_to_data in Hs; rewrite Hs in Hp; destruct Hp.
        -- apply broadcast_data in Hs; rewrite Hs in Hp; destruct Hp.
    + (* chat *)
      unfold handleChat in *.
      destruct (map_get playerId (players st)); [|destruct Hsent].
      apply broadcast_data in Hsent; rewrite Hsent in Hp; destruct Hp.
    + destruct Hsent.
  - (* close *)
    unfold handleClose in *.
    destruct (map_get playerId (players st)); [|destruct Hsent].
    apply broadcast_data in Hsent; rewrite Hsent in Hp; destruct Hp.
  - (* timer *)
    unfold gameLoop in *; cbn [fst snd players] in *.
    apply in_app_or in Hsent; destruct Hsent as [Hs|Hs].
    + destruct (_ =? 0)%Z; [|destruct Hs].
      apply in_flat_map in Hs; destruct Hs as (kp & _ & Hs).
      apply send_to_data in Hs; rewrite Hs in Hp; destruct Hp.
    + destruct ((tick st + 1) mod 10 =? 0)%Z; [|destruct Hs].
      apply broadcast_data in Hs; rewrite Hs in Hp; cbn in Hp.
      apply in_map_iff in Hp; destruct Hp as (q & <- & Hq); eauto.
Qed.

Lemma wire_players_are_sanitized_witness :
  In (1%nat,
      init aliceId (sanitizePlayer alice) [sanitizePlayer alice] [])
     (snd (step allOpen (initialState [])
                (message_received aliceId (join "") 1%nat (1 / 2) (1 / 2)))) /\
  In (sanitizePlayer alice)
     (playerRecords
        (snd (1%nat,
              init aliceId (sanitizePlayer alice) [sanitizePlayer alice] []))) /\
  ws (sanitizePlayer alice) = None /\
  exists q,
    In q (map_values
            (players
               (fst (step allOpen (initialState [])
                          (message_received aliceId (join "") 1%nat
                                            (1 / 2) (1 / 2)))))) /\
    sanitizePlayer alice = sanitizePlayer q /\
    sanitizePlayer alice
    = mkPlayer (player_id q) (name q) (faction q) (position q) (gold q)
               (army q) (color q) None /\
    player_id (sanitizePlayer alice) = player_id q /\
    name (sanitizePlayer alice) = name q /\
    faction (sanitizePlayer alice) = faction q /\
    position (sanitizePlayer alice) = position q /\
    gold (sanitizePlayer alice) = gold q /\
    army (sanitizePlayer alice) = army q /\
    color (sanitizePlayer alice) = color q.
Proof.
  assert (Hsent :
            In (1%nat,
                init aliceId (sanitizePlayer alice) [sanitizePlayer alice] [])
               (snd (step allOpen (initialState [])
                          (message_received aliceId (join "") 1%nat
                                            (1 / 2) (1 / 2)))))
    by (left; reflexivity).
  assert (Hp :
            In (sanitizePlayer alice)
               (playerRecords
                  (snd (1%nat,
                        init aliceId (sanitizePlayer alice)
                             [sanitizePlayer alice] []))))
    by (left; reflexivity).
  split; [exact Hsent|]. split; [exact Hp|].
  exact (wire_players_are_sanitized allOpen (initialState []) _ _ _ Hsent Hp).
Defined.

(** ** An invariant of the registry *)

Lemma Forall_map_set :
  forall (P : string * Player -> Prop) k p m,
    Forall P m -> P (k, p) -> Forall P (map_set k p m).
Proof.
  intros P k p m Hm Hp; induction m as [|[k' q] m IH]; simpl.
  - constructor; [assumption | constructor].
  - inversion Hm; subst.
    destruct (k =? k'); constructor; auto.
Qed.

Lemma Forall_map_delete :
  forall (P : string * Player -> Prop) k m,
    Forall P m -> Forall P (map_delete k m).
Proof.
  intros P k m Hm; induction m as [|[k' q] m IH]; simpl; [constructor|].
  inversion Hm; subst.
  destruct (k =? k'); [assumption | constructor; auto].
Qed.

Lemma Forall_map_modify :
  forall (P : string * Player -> Prop) k f m,
    Forall P m ->
    (forall q, P (k, q) -> P (k, f q)) ->
    Forall P (map_modify k f m).
Proof.
  intros P k f m Hm Hf; unfold map_modify.
  destruct (map_get k m) as [q|] eqn:E; [|assumption].
  apply Forall_map_set; [assumption|].
  apply Hf; rewrite Forall_forall in Hm; apply Hm.
  now apply map_get_In.
Qed.

Lemma statsDefined_applyLosses :
  forall lossRatio army,
    statsDefined army -> statsDefined (applyLosses lossRatio army).
Proof.
  intros lossRatio army H u Hu; unfold applyLosses in Hu.
  apply in_map_iff in Hu; destruct Hu as (u0 & <- & Hu0); simpl; auto.
Qed.

Lemma statsDefined_removeEmpty :
  forall army, statsDefined army -> statsDefined (removeEmpty army).
Proof.
  intros army H u Hu; unfold removeEmpty in Hu.
  apply filter_In in Hu; destruct Hu; auto.
Qed.

Lemma addToExisting_types :
  forall t n army u,
    In u (addToExisting t n army) -> exists u0, In u0 army /\ utype u = utype u0.
Proof.
  intros t n army; induction army as [|u0 rest IH]; simpl; [tauto|].
  intros u; destruct (utype u0 =? t); simpl.
  - intros [<-|H]; eauto.
  - intros [<-|H]; [eauto|].
    destruct (IH u H) as (u1 & H1 & H2); eauto.
Qed.

Lemma statsDefined_recruitInto :
  forall t n army,
    UNIT_STATS t <> None ->
    statsDefined army -> statsDefined (recruitInto t n army).
Proof.
  intros t n army Ht H u Hu; unfold recruitInto in Hu.
  destruct (find _ army).
  - apply addToExisting_types in Hu; destruct Hu as (u1 & Hu1 & Heq).
    rewrite Heq; auto.
  - apply in_app_or in Hu; destruct Hu as [Hu|[<-|[]]]; auto.
Qed.

Lemma resolveBattle_registryOk :
  forall m attacker defender ra rd m' outcome,
    Forall entryOk m ->
    resolveBattle m attacker defender ra rd = Some (m', outcome) ->
    Forall entryOk m'.
Proof.
  intros m attacker defender ra rd m' outcome Hm Hres.
  unfold resolveBattle in Hres.
  destruct (map_get attacker m) as [a|]; [|discriminate].
  destruct (map_get defender m) as [d|]; [|discriminate].
  destruct (getArmyPower (army a)); [|discriminate].
  destruct (getArmyPower (army d)); [|discriminate].
  inversion Hres; subst; clear Hres.
  repeat (apply Forall_map_modify;
          [| intros q (Hid & Hws & Hst); repeat split; simpl; auto;
             auto using statsDefined_applyLosses, statsDefined_removeEmpty]).
  assumption.
Qed.

Lemma step_registryOk :
  forall rs st e, registryOk st -> registryOk (fst (step rs st e)).
Proof.
  unfold registryOk; intros rs st e Hst.
  destruct e as [playerId message w r1 r2 | playerId | ]; cbn [step].
  - destruct message as [nm | x y | unitType n | targetId territoryId
                        | text | ty]; cbn [handleMessage].
    + unfold handleJoin; cbn [fst players set_players].
      apply Forall_map_set; [assumption|].
      repeat split; simpl; [discriminate|].
      intros u [<-|[<-|[]]]; discriminate.
    + unfold handleMove.
      destruct (map_get playerId (players st)) as [player|] eqn:E;
        [|assumption].
      cbn [fst players set_players].
      apply Forall_map_set; [assumption|].
      apply map_get_In in E; rewrite Forall_forall in Hst.
      exact (Hst _ E).
    + unfold handleRecruit.
      destruct (map_get playerId (players st)) as [player|] eqn:E;
        [|assumption].
      destruct (UNIT_STATS unitType) as [stats|] eqn:Es; [|assumption].
      destruct (js_lt _ _); [assumption|].
      cbn [fst players set_players].
      apply Forall_map_set; [assumption|].
      apply map_get_In in E; rewrite Forall_forall in Hst.
      destruct (Hst _ E) as (Hid & Hws & Harmy).
      repeat split; simpl; auto.
      apply statsDefined_recruitInto; [congruence | assumption].
    + unfold handleAttack.
      destruct (map_get playerId (players st)); [|assumption].
      destruct targetId as [target|]; [|assumption].
      destruct (target =? ""); [assumption|].
      destruct (map_get target (players st)); [|assumption].
      destruct (js_gt _ _); [assumption|].
      destruct (resolveBattle _ _ _ _ _) as [[m battle]|] eqn:E;
        [|assumption].
      cbn [fst players set_players].
      eapply resolveBattle_registryOk; eassumption.
    + unfold handleChat.
      destruct (map_get playerId (players st)); assumption.
    + assumption.
  - unfold handleClose.
    destruct (map_get playerId (players st)); [|assumption].
    cbn [fst players set_players]; now apply Forall_map_delete.
  - unfold gameLoop; cbn [fst players].
    destruct (_ =? 0)%Z; [|assumption].
    apply Forall_map; revert Hst; apply Forall_impl.
    intros [k p] H; exact H.
Qed.

(** Every state the server reaches satisfies the registry invariant; in
    particular [send(player.ws!, ...)] always finds a connection and
    [getArmyPower] never raises. *)
Lemma reachable_registryOk :
  forall rs ts st, reachable rs ts st -> registryOk st.
Proof.
  intros rs ts st H; induction H.
  - constructor.
  - now apply step_registryOk.
Qed.

(** Recruiting leaves no empty stack when it has what the handler does not
    check: a strictly positive count (and an army without empty stacks). *)
Lemma js_gt_add_positive :
  forall c n,
    js_gt c (Fin 0) = true -> js_gt n (Fin 0) = true ->
    js_gt (js_add c n) (Fin 0) = true.
Proof.
  unfold js_gt; intros [r| | |] [s| | |]; cbn; try discriminate; auto.
  destruct (Rlt_dec 0 r); [|discriminate].
  destruct (Rlt_dec 0 s); [|discriminate].
  destruct (Rlt_dec 0 (r + s)); [reflexivity | lra].
Qed.

Lemma addToExisting_In :
  forall t n army u,
    In u (addToExisting t n army) ->
    In u army \/
    exists u0, In u0 army /\ count u = js_add (count u0) n.
Proof.
  intros t n army; induction army as [|u0 rest IH]; simpl; [tauto|].
  intros u; destruct (utype u0 =? t); simpl.
  - intros [<-|H]; [right; exists u0; auto | auto].
  - intros [<-|H]; [auto|].
    destruct (IH u H) as [H'|(u1 & H1 & H2)]; [auto | right; eauto].
Qed.

Lemma recruit_positive_keeps_stacks_positive :
  forall t n army,
    (forall u, In u army -> js_gt (count u) (Fin 0) = true) ->
    js_gt n (Fin 0) = true ->
    forall u, In u (recruitInto t n army) -> js_gt (count u) (Fin 0) = true.
Proof.
  intros t n army Harmy Hn u Hu; unfold recruitInto in Hu.
  destruct (find _ army).
  - apply addToExisting_In in Hu; destruct Hu as [Hu|(u1 & Hu1 & Heq)]; auto.
    rewrite Heq; apply js_gt_add_positive; auto.
  - apply in_app_or in Hu; destruct Hu as [Hu|[<-|[]]]; auto.
Qed.

(* ================================================================== *)
(** * Further properties *)
(* ================================================================== *)

(** ** Delivery *)

Lemma send_In :
  forall rs w data w' msg,
    In (w', msg) (send rs w data) <-> w' = w /\ msg = data /\ rs w = OPEN.
Proof.
  intros rs w data w' msg; unfold send.
  destruct (Nat.eqb (rs w) OPEN) eqn:E.
  - apply Nat.eqb_eq in E; simpl; split.
    + intros [H|[]]; inversion H; subst; repeat split; auto.
    + intros (-> & -> & _); auto.
  - apply Nat.eqb_neq in E; simpl; split; [tauto | intros (_ & _ & H); auto].
Qed.

Lemma broadcast_from_registry :
  forall rs m data excludeId w msg,
    In (w, msg) (broadcast rs m data excludeId) ->
    msg = data /\
    rs w = OPEN /\
    exists k p, In (k, p) m /\ ws p = Some w /\ excludeId <> Some k.
Proof.
  intros rs m data excludeId w msg; unfold broadcast.
  rewrite in_flat_map; intros ([k p] & Hin & H).
  destruct excludeId as [e|].
  - destruct (k =? e) eqn:E; [destruct H|].
    destruct (ws p) as [w0|] eqn:Hws; [|destruct H].
    apply send_In in H; destruct H as (-> & -> & Hopen).
    repeat split; auto; exists k, p; repeat split; auto.
    apply String.eqb_neq in E; congruence.
  - destruct (ws p) as [w0|] eqn:Hws; [|destruct H].
    apply send_In in H; destruct H as (-> & -> & Hopen).
    repeat split; auto; exists k, p; repeat split; auto; discriminate.
Qed.

(** X1: [broadcast] hands the message, unchanged, to exactly the
    connections of the registered players other than the excluded one whose
    socket is open; a closed socket is skipped silently. *)
Theorem broadcast_reaches_open_sockets_of_others :
  forall rs m data excludeId w msg,
    In (w, msg) (broadcast rs m data excludeId) <->
    msg = data /\
    rs w = OPEN /\
    exists k p, In (k, p) m /\ ws p = Some w /\ excludeId <> Some k.
Proof.
  intros rs m data excludeId w msg; split;
    [apply broadcast_from_registry|].
  intros (-> & Hopen & k & p & Hin & Hws & Hex).
  unfold broadcast; rewrite in_flat_map.
  exists (k, p); split; [assumption|].
  assert (Hno : match excludeId with Some e => k =? e | None => false end
                = false).
  { destruct excludeId as [e|]; [|reflexivity].
    apply String.eqb_neq; congruence. }
  rewrite Hno, Hws; apply send_In; auto.
Qed.

(** ** Territories and income *)

Lemma territoriesFrom_length :
  forall random names i,
    List.length (territoriesFrom random i names) = List.length names.
Proof. intros random names; induction names; simpl; auto. Qed.

Lemma territoriesFrom_positions :
  forall random,
    (forall k, 0 <= random k < 1) ->
    forall names i t,
      In t (territoriesFrom random i names) ->
      exists x y,
        terr_position t = mkPosition (Fin x) (Fin y) /\
        10 <= x < 90 /\ 10 <= y < 90.
Proof.
  intros random Hr names; induction names as [|nm rest IH];
    cbn [territoriesFrom In]; intros i t; [tauto|].
  intros [<-|H]; [|eauto].
  cbn [terr_position js_add js_mul].
  do 2 eexists; split; [reflexivity|].
  pose proof (Hr (2 * i)%nat); pose proof (Hr (2 * i + 1)%nat).
  split; lra.
Qed.

(** X2: [generateTerritories] makes eighteen territories with pairwise
    different ids; the first six are cities of income 500, each owned by the
    faction of the same index, the next six are ownerless castles of income
    200 and the last six ownerless villages of income 100; with random draws
    in [0, 1) every territory lies in [10, 90) on both axes. *)
Theorem generated_territories_layout :
  forall random,
    (forall k, 0 <= random k < 1) ->
    let ts := generateTerritories random in
    List.length ts = 18%nat /\
    NoDup (map terr_id ts) /\
    map owner ts = map Some FACTIONS ++ repeat None 12 /\
    map terr_type ts = repeat city 6 ++ repeat castle 6 ++ repeat village 6 /\
    map income ts
    = repeat (Fin 500) 6 ++ repeat (Fin 200) 6 ++ repeat (Fin 100) 6 /\
    forall t, In t ts ->
      exists x y,
        terr_position t = mkPosition (Fin x) (Fin y) /\
        10 <= x < 90 /\ 10 <= y < 90.
Proof.
  intros random Hr ts; subst ts; unfold generateTerritories.
  split; [reflexivity|].
  split.
  { cbn -[append]; repeat constructor; simpl;
      intuition (try discriminate). }
  split; [reflexivity|]. split; [reflexivity|]. split; [reflexivity|].
  apply territoriesFrom_positions; assumption.
Qed.



(** ** The timer *)

Lemma gameLoop_ordinary_tick :
  forall rs st,
    ((tick st + 1) mod 60 <> 0)%Z ->
    players (fst (gameLoop rs st)) = players st /\
    territories (fst (gameLoop rs st)) = territories st /\
    tick (fst (gameLoop rs st)) = (tick st + 1)%Z.
Proof.
  intros rs st H; unfold gameLoop; cbn [fst players territories tick].
  apply Z.eqb_neq in H; rewrite H; auto.
Qed.

Lemma gameLoop_payday :
  forall rs st,
    ((tick st + 1) mod 60 = 0)%Z ->
    players (fst (gameLoop rs st))
    = map (fun kp : string * Player =>
             (fst kp, payIncome (territories st) (snd kp)))
          (players st) /\
    territories (fst (gameLoop rs st)) = territories st /\
    tick (fst (gameLoop rs st)) = (tick st + 1)%Z.
Proof.
  intros rs st H; unfold gameLoop; cbn [fst players territories tick].
  apply Z.eqb_eq in H; rewrite H; auto.
Qed.

Lemma runLoop_between_paydays :
  forall rs n st,
    (forall j, (0 < j <= Z.of_nat n)%Z -> ((tick st + j) mod 60 <> 0)%Z) ->
    players (runLoop rs n st) = players st /\
    territories (runLoop rs n st) = territories st /\
    tick (runLoop rs n st) = (tick st + Z.of_nat n)%Z.
Proof.
  intros rs n; induction n as [|n IH]; intros st H.
  - cbn [runLoop]; repeat split; simpl; lia.
  - cbn [runLoop].
    destruct (gameLoop_ordinary_tick rs st) as (Hp & Ht & Hk);
      [apply H; lia|].
    destruct (IH (fst (gameLoop rs st))) as (Hp' & Ht' & Hk').
    { intros j Hj; rewrite Hk.
      replace (tick st + 1 + j)%Z with (tick st + (j + 1))%Z by lia.
      apply H; lia. }
    rewrite Hp', Ht', Hk', Hp, Ht, Hk; repeat split; lia.
Qed.

Lemma runLoop_app :
  forall rs n k st, runLoop rs (n + k) st = runLoop rs k (runLoop rs n st).
Proof.
  intros rs n; induction n as [|n IH]; intros k st; cbn [runLoop Nat.add];
    auto.
Qed.

(** X4: the timer pays income once every 60 runs.  Starting on a tick that
    is a multiple of 60 (the server starts on tick 0), any number of runs
    below 60 leaves every player as it was, and the 60th run applies
    [payIncome] to every player exactly once; the tick has then advanced by
    60 and the territories are untouched. *)
Theorem sixty_runs_pay_once :
  forall rs st,
    (tick st mod 60 = 0)%Z ->
    (forall n, (n < 60)%nat -> players (runLoop rs n st) = players st) /\
    players (runLoop rs 60 st)
    = map (fun kp : string * Player =>
             (fst kp, payIncome (territories st) (snd kp)))
          (players st) /\
    territories (runLoop rs 60 st) = territories st /\
    tick (runLoop rs 60 st) = (tick st + 60)%Z.
Proof.
  intros rs st H0.
  assert (Hquiet : forall n, (n < 60)%nat ->
            forall j, (0 < j <= Z.of_nat n)%Z ->
                      ((tick st + j) mod 60 <> 0)%Z).
  { intros n Hn j Hj.
    rewrite Z.add_mod, H0, Z.add_0_l, Z.mod_mod by lia.
    rewrite Z.mod_small by lia; lia. }
  split.
  - intros n Hn; apply (runLoop_between_paydays rs n st (Hquiet n Hn)).
  - change 60%nat with (59 + 1)%nat; rewrite runLoop_app.
    destruct (runLoop_between_paydays rs 59 st (Hquiet 59%nat ltac:(lia)))
      as (Hp & Ht & Hk).
    set (st59 := runLoop rs 59 st) in *.
    change (runLoop rs 1 st59) with (fst (gameLoop rs st59)).
    destruct (gameLoop_payday rs st59) as (Hp' & Ht' & Hk').
    { rewrite Hk.
      replace (tick st + Z.of_nat 59 + 1)%Z with (tick st + 60)%Z by lia.
      rewrite Z.add_mod, H0 by lia; reflexivity. }
    rewrite Hp', Ht', Hk', Hp, Ht, Hk; repeat split; lia.
Qed.

Lemma generated_territories_layout_witness :
  (forall k, 0 <= evenDraws k < 1) /\
  List.length (generateTerritories evenDraws) = 18%nat /\
  NoDup (map terr_id (generateTerritories evenDraws)).
Proof.
  assert (H : forall k, 0 <= evenDraws k < 1)
    by (intros k; unfold evenDraws; lra).
  split; [exact H|].
  pose proof (generated_territories_layout evenDraws H) as (Hl & Hn & _).
  exact (conj Hl Hn).
Defined.


Lemma sixty_runs_pay_once_witness :
  (tick aliceAlone mod 60 = 0)%Z /\
  players (runLoop allOpen 60 aliceAlone)
  = map (fun kp : string * Player =>
           (fst kp, payIncome (territories aliceAlone) (snd kp)))
        (players aliceAlone) /\
  tick (runLoop allOpen 60 aliceAlone) = (tick aliceAlone + 60)%Z.
Proof.
  assert (H : (tick aliceAlone mod 60 = 0)%Z) by reflexivity.
  split; [exact H|].
  pose proof (sixty_runs_pay_once allOpen aliceAlone H) as (_ & Hp & _ & Hk).
  exact (conj Hp Hk).
Defined.

(** ** More on joining *)

Lemma faction_index_in_range :
  forall n, (n mod List.length FACTIONS < 6)%nat.
Proof. intros n; apply Nat.mod_upper_bound; discriminate. Qed.

(** X5: a join registers, under the session's id, a player with 1000
    gold, the starter army (20 infantry and 10 archers of level 1), the
    joining connection, a non-empty name, a faction and the colour of the
    same index, and, for random draws in [0, 1), a spawn point in
    [20, 80] on both axes.  Every other session's player, the territories
    and the tick are left as they were. *)
Theorem join_registers_a_fresh_player :
  forall rs st playerId nm w r1 r2,
    0 <= r1 < 1 ->
    0 <= r2 < 1 ->
    let st' := fst (handleJoin rs st playerId nm w r1 r2) in
    (exists p x y i,
       map_get playerId (players st') = Some p /\
       player_id p = playerId /\
       name p <> "" /\
       gold p = Fin 1000 /\
       army p = [mkUnit "infantry" (Fin 20) (Fin 1);
                 mkUnit "archer" (Fin 10) (Fin 1)] /\
       ws p = Some w /\
       position p = mkPosition (Fin x) (Fin y) /\
       20 <= x <= 80 /\ 20 <= y <= 80 /\
       (i < 6)%nat /\
       faction p = nth i FACTIONS "" /\
       color p = nth i FACTION_COLORS "") /\
    (forall k, k <> playerId ->
               map_get k (players st') = map_get k (players st)) /\
    territories st' = territories st /\
    tick st' = tick st.
Proof.
  intros rs st playerId nm w r1 r2 Hr1 Hr2 st'; subst st'.
  unfold handleJoin; cbn [fst players territories tick set_players].
  split; [|split; [|split; reflexivity]].
  - rewrite map_get_set_same.
    eexists; exists (20 + r1 * 60), (20 + r2 * 60),
                    (map_size (players st) mod List.length FACTIONS)%nat.
    split; [reflexivity|]; cbn.
    repeat split; try lra; try reflexivity.
    + destruct (nm =? "") eqn:E; [discriminate|].
      apply String.eqb_neq in E; exact E.
    + apply faction_index_in_range.
  - intros k Hk; apply map_get_set_other; congruence.
Qed.

Lemma join_registers_a_fresh_player_witness :
  0 <= 1 / 2 < 1 /\
  forall k, k <> aliceId ->
    map_get k (players (fst (handleJoin allOpen aliceAndBob aliceId "Al"
                                        7%nat (1 / 2) (1 / 2))))
    = map_get k (players aliceAndBob).
Proof.
  assert (H : 0 <= 1 / 2 < 1) by lra.
  split; [exact H|].
  exact (proj1 (proj2 (join_registers_a_fresh_player
                         allOpen aliceAndBob aliceId "Al" 7%nat
                         (1 / 2) (1 / 2) H H))).
Defined.

(** X6: when the joining connection is open, the joiner receives exactly
    one message on it from the join itself, the [init] message, which
    carries the joiner's id, its sanitized record, the sanitized records of
    all registered players (the joiner among them) and the territories.
    Every other message of the join is [player_joined] with the same
    record, sent to the connection of a player registered under another
    id. *)
Theorem join_announces_the_player :
  forall rs st playerId nm w r1 r2,
    rs w = OPEN ->
    exists p rest,
      map_get playerId
        (players (fst (handleJoin rs st playerId nm w r1 r2))) = Some p /\
      snd (handleJoin rs st playerId nm w r1 r2)
      = (w, init playerId (sanitizePlayer p)
                 (map sanitizePlayer
                    (map_values
                       (players (fst (handleJoin rs st playerId nm w r1 r2)))))
                 (territories st))
        :: rest /\
      In (sanitizePlayer p)
         (map sanitizePlayer
            (map_values
               (players (fst (handleJoin rs st playerId nm w r1 r2))))) /\
      forall w' msg,
        In (w', msg) rest ->
        msg = player_joined (sanitizePlayer p) /\
        rs w' = OPEN /\
        exists k q,
          k <> playerId /\
          In (k, q) (players (fst (handleJoin rs st playerId nm w r1 r2))) /\
          ws q = Some w'.
Proof.
  intros rs st playerId nm w r1 r2 Hopen.
  unfold handleJoin; cbn [fst snd players set_players].
  set (p := mkPlayer playerId _ _ _ _ _ _ _).
  exists p; eexists; rewrite map_get_set_same.
  split; [reflexivity|].
  split; [unfold send; rewrite Hopen; reflexivity|].
  split.
  - apply in_map; eapply map_get_values, map_get_set_same.
  - intros w' msg Hin.
    apply broadcast_from_registry in Hin.
    destruct Hin as (-> & Ho & k & q & Hkq & Hws & Hne).
    repeat split; auto; exists k, q; repeat split; auto; congruence.
Qed.

Lemma join_announces_the_player_witness :
  allOpen 1%nat = OPEN /\
  exists p rest,
    map_get aliceId
      (players (fst (handleJoin allOpen (initialState []) aliceId ""
                                1%nat (1 / 2) (1 / 2)))) = Some p /\
    snd (handleJoin allOpen (initialState []) aliceId "" 1%nat
                    (1 / 2) (1 / 2))
    = (1%nat,
       init aliceId (sanitizePlayer p)
            (map sanitizePlayer
               (map_values
                  (players (fst (handleJoin allOpen (initialState [])
                                            aliceId "" 1%nat
                                            (1 / 2) (1 / 2))))))
            (territories (initialState [])))
      :: rest.
Proof.
  assert (H : allOpen 1%nat = OPEN) by reflexivity.
  split; [exact H|].
  destruct (join_announces_the_player allOpen (initialState []) aliceId ""
              1%nat (1 / 2) (1 / 2) H) as (p & rest & Hp & Hs & _).
  exists p, rest; exact (conj Hp Hs).
Defined.

(** ** Requests that name nobody *)

(** X7: a request other than [join] from a session that has not joined, and
    an attack that names no target, an empty target or a target that is not
    registered, change nothing and send nothing. *)
Theorem stale_requests_are_ignored :
  forall rs st playerId message w r1 r2,
    (map_get playerId (players st) = None /\
     forall nm, message <> join nm) \/
    (exists targetId territoryId,
        message = attack_msg targetId territoryId /\
        (targetId = None \/ targetId = Some "" \/
         exists target, targetId = Some target /\
                        map_get target (players st) = None)) ->
    handleMessage rs st playerId message w r1 r2 = (st, []).
Proof.
  intros rs st playerId message w r1 r2 [[Hnone Hjoin]|H].
  - destruct message as [nm | x y | unitType n | targetId territoryId
                        | text | ty]; cbn [handleMessage].
    + exfalso; apply (Hjoin nm); reflexivity.
    + unfold handleMove; now rewrite Hnone.
    + unfold handleRecruit; now rewrite Hnone.
    + unfold handleAttack; now rewrite Hnone.
    + unfold handleChat; now rewrite Hnone.
    + reflexivity.
  - destruct H as (targetId & territoryId & -> & H); cbn [handleMessage].
    unfold handleAttack.
    destruct (map_get playerId (players st)) as [attacker|]; [|reflexivity].
    destruct H as [-> | [-> | (target & -> & Hnone)]];
      [reflexivity | reflexivity |].
    destruct (target =? ""); [reflexivity|].
    now rewrite Hnone.
Qed.

Lemma stale_requests_are_ignored_witness :
  ((map_get bobId (players aliceAlone) = None /\
    forall nm, move (Fin 1) (Fin 2) <> join nm) \/
   (exists targetId territoryId,
       move (Fin 1) (Fin 2) = attack_msg targetId territoryId /\
       (targetId = None \/ targetId = Some "" \/
        exists target, targetId = Some target /\
                       map_get target (players aliceAlone) = None))) /\
  handleMessage allOpen aliceAlone bobId (move (Fin 1) (Fin 2)) 2%nat 0 0
  = (aliceAlone, []).
Proof.
  assert (H : (map_get bobId (players aliceAlone) = None /\
               forall nm, move (Fin 1) (Fin 2) <> join nm) \/
              (exists targetId territoryId,
                  move (Fin 1) (Fin 2) = attack_msg targetId territoryId /\
                  (targetId = None \/ targetId = Some "" \/
                   exists target, targetId = Some target /\
                                  map_get target (players aliceAlone) = None))).
  { left; split; [reflexivity | intros nm; discriminate]. }
  split; [exact H|].
  exact (stale_requests_are_ignored allOpen aliceAlone bobId
                                    (move (Fin 1) (Fin 2)) 2%nat 0 0 H).
Defined.

(** ** More on moving *)

Lemma map_keys_set_present :
  forall k p q m,
    map_get k m = Some q -> map_keys (map_set k p m) = map_keys m.
Proof.
  intros k p q m H; apply map_set_present_keys.
  apply map_get_In in H; unfold map_keys.
  apply in_map_iff; exists (k, q); auto.
Qed.



(** ** More on battles *)






(** What a loss fraction between 0 and 1 does to a stack that survives. *)
Lemma surviving_stack :
  forall f army u',
    0 <= f <= 1 ->
    (forall u, In u army -> exists c, count u = Fin c /\ 0 <= c) ->
    In u' (removeEmpty (applyLosses (Fin f) army)) ->
    exists u c z,
      In u army /\
      utype u' = utype u /\ level u' = level u /\
      count u = Fin c /\ count u' = Fin (IZR z) /\
      0 < IZR z <= c * (1 - f).
Proof.
  intros f army u' Hf Hcounts Hin.
  unfold removeEmpty in Hin; apply filter_In in Hin.
  destruct Hin as [Hin Hpos].
  unfold applyLosses in Hin; apply in_map_iff in Hin.
  destruct Hin as (u & <- & Hu).
  destruct (Hcounts u Hu) as (c & Hc & Hc0).
  exists u, c, (Zfloor (c * (1 - f))).
  cbn [utype level count] in *; rewrite Hc in *; cbn in Hpos |- *.
  repeat split; auto.
  - unfold js_gt in Hpos; cbn in Hpos.
    destruct (Rlt_dec 0 _); [|discriminate].
    replace (c * (1 - f)) with (c * (1 + - f)) by ring; assumption.
  - pose proof (Zfloor_bound (c * (1 - f))); lra.
Qed.

Lemma removeEmpty_length :
  forall army, (List.length (removeEmpty army) <= List.length army)%nat.
Proof. intros army; apply filter_length_le. Qed.

(** X12: in a battle between two different players whose powers are not
    negative and not both zero and whose stacks have non-negative counts,
    nobody gains units: every stack left in either army is an old stack of
    the same type and level whose count is a positive whole number no
    greater than before, no stack is added, and every stack the loser keeps
    has at most half of its old count. *)
Theorem battle_only_removes_units :
  forall m attacker defender a d pa pd ra rd,
    attacker <> defender ->
    map_get attacker m = Some a ->
    map_get defender m = Some d ->
    getArmyPower (army a) = Some (Fin pa) ->
    getArmyPower (army d) = Some (Fin pd) ->
    0 <= pa -> 0 <= pd -> 0 < pa \/ 0 < pd ->
    0 <= ra < 1 -> 0 <= rd < 1 ->
    (forall u, In u (army a ++ army d) -> exists c, count u = Fin c /\ 0 <= c) ->
    exists m' battle wid lid w l w' l',
      resolveBattle m attacker defender ra rd = Some (m', battle) /\
      ((wid = attacker /\ lid = defender /\ w = a /\ l = d) \/
       (wid = defender /\ lid = attacker /\ w = d /\ l = a)) /\
      map_get wid m' = Some w' /\
      map_get lid m' = Some l' /\
      (List.length (army w') <= List.length (army w))%nat /\
      (List.length (army l') <= List.length (army l))%nat /\
      (forall u', In u' (army w') ->
         exists u c z,
           In u (army w) /\ utype u' = utype u /\ level u' = level u /\
           count u = Fin c /\ count u' = Fin (IZR z) /\ 0 < IZR z <= c) /\
      (forall u', In u' (army l') ->
         exists u c z,
           In u (army l) /\ utype u' = utype u /\ level u' = level u /\
           count u = Fin c /\ count u' = Fin (IZR z) /\
           0 < IZR z <= c / 2).
Proof.
  intros m attacker defender a d pa pd ra rd Hne Ha Hd Hpa Hpd
         Hpa0 Hpd0 Hpos Hra Hrd Hcounts.
  destruct (resolveBattle_distinct m attacker defender a d (Fin pa) (Fin pd)
              ra rd Hne Ha Hd Hpa Hpd) as (m' & Hres & Hw & Hl & _).
  rewrite !randomize_finite in *.
  assert (Hap : 0 <= pa * (8 / 10 + ra * (4 / 10))) by nra.
  assert (Hdp : 0 <= pd * (8 / 10 + rd * (4 / 10))) by nra.
  destruct (battleRatio_finite _ _ Hap Hdp) as [Hfrac _].
  destruct Hfrac as (r & Hr & Hbounds);
    [destruct Hpos; [left | right]; nra|].
  rewrite Hr in Hw, Hl.
  change (winnerLossRatio (Fin r)) with (Fin (r * (3 / 10))) in Hw.
  change (loserLossRatio (Fin r))
    with (Fin (5 / 10 + (1 + - r) * (5 / 10))) in Hl.
  assert (Hwin : forall army0 u',
             (forall u, In u army0 -> exists c, count u = Fin c /\ 0 <= c) ->
             In u' (removeEmpty (applyLosses (Fin (r * (3 / 10))) army0)) ->
             exists u c z,
               In u army0 /\ utype u' = utype u /\ level u' = level u /\
               count u = Fin c /\ count u' = Fin (IZR z) /\ 0 < IZR z <= c).
  { intros army0 u' Hc Hin.
    destruct (surviving_stack (r * (3 / 10)) army0 u' ltac:(lra) Hc Hin)
      as (u & c & z & Hu & Ht & Hlv & Hcu & Hcu' & Hz).
    exists u, c, z; repeat split; auto; try lra.
    destruct (Hc u Hu) as (c0 & Hc0 & Hc0pos).
    assert (c0 = c) by congruence; subst c0; nra. }
  assert (Hlose : forall army0 u',
             (forall u, In u army0 -> exists c, count u = Fin c /\ 0 <= c) ->
             In u' (removeEmpty
                      (applyLosses (Fin (5 / 10 + (1 + - r) * (5 / 10)))
                                   army0)) ->
             exists u c z,
               In u army0 /\ utype u' = utype u /\ level u' = level u /\
               count u = Fin c /\ count u' = Fin (IZR z) /\
               0 < IZR z <= c / 2).
  { intros army0 u' Hc Hin.
    destruct (surviving_stack (5 / 10 + (1 + - r) * (5 / 10)) army0 u'
                ltac:(lra) Hc Hin)
      as (u & c & z & Hu & Ht & Hlv & Hcu & Hcu' & Hz).
    exists u, c, z; repeat split; auto; try lra.
    destruct (Hc u Hu) as (c0 & Hc0 & Hc0pos).
    assert (c0 = c) by congruence; subst c0; nra. }
  assert (Hca : forall u, In u (army a) -> exists c, count u = Fin c /\ 0 <= c)
    by (intros u Hu; apply Hcounts, in_or_app; auto).
  assert (Hcd : forall u, In u (army d) -> exists c, count u = Fin c /\ 0 <= c)
    by (intros u Hu; apply Hcounts, in_or_app; auto).
  assert (Hlen : forall f army0,
             (List.length (removeEmpty (applyLosses f army0))
              <= List.length army0)%nat).
  { intros f army0; eapply Nat.le_trans; [apply removeEmpty_length|].
    unfold applyLosses; rewrite length_map; lia. }
  destruct (js_gt (Fin (pa * (8 / 10 + ra * (4 / 10))))
                  (Fin (pd * (8 / 10 + rd * (4 / 10))))).
  - exists m'; eexists; exists attacker, defender, a, d; do 2 eexists.
    split; [exact Hres|]. split; [left; auto|].
    split; [exact Hw|]. split; [exact Hl|].
    cbn [army with_army with_gold]; repeat split; auto.
  - exists m'; eexists; exists defender, attacker, d, a; do 2 eexists.
    split; [exact Hres|]. split; [right; auto|].
    split; [exact Hw|]. split; [exact Hl|].
    cbn [army with_army with_gold]; repeat split; auto.
Qed.

Lemma map_get_modify :
  forall k k' f m,
    map_get k' (map_modify k f m)
    = if k =? k' then option_map f (map_get k' m) else map_get k' m.
Proof.
  intros k k' f m; destruct (k =? k') eqn:E.
  - apply String.eqb_eq in E; subst; apply map_get_modify_same.
  - apply String.eqb_neq in E; now apply map_get_modify_other.
Qed.

Lemma map_keys_modify :
  forall k f m, map_keys (map_modify k f m) = map_keys m.
Proof.
  intros k f m; unfold map_modify.
  destruct (map_get k m) eqn:E; [|reflexivity].
  eapply map_keys_set_present; eassumption.
Qed.

Lemma map_modify_keeps :
  forall (T : Type) (I : Player -> T) k f m,
    (forall q, I (f q) = I q) ->
    forall k', option_map I (map_get k' (map_modify k f m))
               = option_map I (map_get k' m).
Proof.
  intros T I k f m Hf k'; rewrite map_get_modify.
  destruct (k =? k'); [|reflexivity].
  destruct (map_get k' m); simpl; [now rewrite Hf | reflexivity].
Qed.

(** X13: a battle between registered players writes nothing but the armies
    and the gold of its two participants: the registry keeps its keys and
    their order, every player keeps its id, name, faction, colour,
    connection and position, and a player who is neither the attacker nor
    the defender is not changed at all. *)
Theorem battle_touches_only_armies_and_gold :
  forall m attacker defender a d ra rd,
    map_get attacker m = Some a ->
    map_get defender m = Some d ->
    statsDefined (army a) ->
    statsDefined (army d) ->
    exists m' battle,
      resolveBattle m attacker defender ra rd = Some (m', battle) /\
      map_keys m' = map_keys m /\
      (forall k,
          option_map identity (map_get k m')
          = option_map identity (map_get k m) /\
          option_map position (map_get k m')
          = option_map position (map_get k m)) /\
      (forall k, k <> attacker -> k <> defender ->
                 map_get k m' = map_get k m).
Proof.
  intros m attacker defender a d ra rd Ha Hd Hsa Hsd.
  destruct (getArmyPower_defined _ Hsa) as [pa Hpa].
  destruct (getArmyPower_defined _ Hsd) as [pd Hpd].
  unfold resolveBattle; rewrite Ha, Hd, Hpa, Hpd.
  do 2 eexists; split; [reflexivity|].
  split; [now rewrite !map_keys_modify|].
  split.
  - intros k; split;
      repeat (rewrite map_modify_keeps by (intros []; reflexivity));
      reflexivity.
  - intros k Hk1 Hk2.
    assert (Hw : (if js_gt (randomize pa ra) (randomize pd rd)
                  then attacker else defender) <> k)
      by (destruct (js_gt _ _); congruence).
    assert (Hl : (if js_gt (randomize pa ra) (randomize pd rd)
                  then defender else attacker) <> k)
      by (destruct (js_gt _ _); congruence).
    repeat (rewrite map_get_modify_other by assumption); reflexivity.
Qed.

Lemma battle_touches_only_armies_and_gold_witness :
  map_get aliceId (players aliceAndBob) = Some alice /\
  map_get bobId (players aliceAndBob) = Some bob /\
  statsDefined (army alice) /\
  statsDefined (army bob) /\
  exists m' battle,
    resolveBattle (players aliceAndBob) aliceId bobId (1 / 2) (1 / 2)
    = Some (m', battle) /\
    map_keys m' = map_keys (players aliceAndBob).
Proof.
  assert (Ha : map_get aliceId (players aliceAndBob) = Some alice)
    by reflexivity.
  assert (Hb : map_get bobId (players aliceAndBob) = Some bob)
    by reflexivity.
  assert (Hsa : statsDefined (army alice))
    by (intros u [<-|[<-|[]]]; discriminate).
  assert (Hsb : statsDefined (army bob))
    by (intros u [<-|[<-|[]]]; discriminate).
  repeat (split; [assumption|]).
  destruct (battle_touches_only_armies_and_gold
              (players aliceAndBob) aliceId bobId alice bob (1 / 2) (1 / 2)
              Ha Hb Hsa Hsb) as (m' & battle & Hres & Hkeys & _).
  exists m', battle; exact (conj Hres Hkeys).
Defined.







Lemma battle_only_removes_units_witness :
  aliceId <> bobId /\
  map_get aliceId (players aliceAndBob) = Some alice /\
  map_get bobId (players aliceAndBob) = Some bob /\
  0 < 0 + (10 + 15) * 20 * 1 + (15 + 5) * 10 * 1 /\
  0 <= 1 / 2 < 1 /\
  (forall u, In u (army alice ++ army bob) ->
             exists c, count u = Fin c /\ 0 <= c) /\
  exists m' battle,
    resolveBattle (players aliceAndBob) aliceId bobId (1 / 2) (1 / 2)
    = Some (m', battle).
Proof.
  assert (Hne : aliceId <> bobId) by discriminate.
  assert (Ha : map_get aliceId (players aliceAndBob) = Some alice)
    by reflexivity.
  assert (Hb : map_get bobId (players aliceAndBob) = Some bob)
    by reflexivity.
  assert (H0 : 0 < 0 + (10 + 15) * 20 * 1 + (15 + 5) * 10 * 1) by lra.
  assert (Hr : 0 <= 1 / 2 < 1) by lra.
  assert (Hc : forall u, In u (army alice ++ army bob) ->
                         exists c, count u = Fin c /\ 0 <= c).
  { intros u [<-|[<-|[<-|[<-|[]]]]]; eexists; split;
      try reflexivity; lra. }
  repeat (split; [assumption|]).
  destruct (battle_only_removes_units
              (players aliceAndBob) aliceId bobId alice bob _ _
              (1 / 2) (1 / 2) Hne Ha Hb eq_refl eq_refl
              (Rlt_le _ _ H0) (Rlt_le _ _ H0) (or_introl H0) Hr Hr Hc)
    as (m' & battle & _ & _ & _ & _ & _ & _ & Hres & _).
  exists m', battle; exact Hres.
Defined.



(** ** Chat *)

Lemma substring_prefix_length :
  forall n s, String.length (substring 0 n s) = Nat.min n (String.length s).
Proof.
  induction n as [|n IH]; intros [|c s]; simpl; auto.
Qed.

Lemma substring_is_prefix :
  forall n s, prefix (substring 0 n s) s = true.
Proof.
  induction n as [|n IH]; intros [|c s]; simpl; auto.
  destruct (ascii_dec c c); [apply IH | congruence].
Qed.

Lemma substring_short :
  forall n s, (String.length s <= n)%nat -> substring 0 n s = s.
Proof.
  induction n as [|n IH]; intros [|c s]; simpl; intros H; auto; try lia.
  f_equal; apply IH; lia.
Qed.

(** X15: a chat message of a registered player changes no state and is
    broadcast to every registered player with an open connection, the
    sender included, under the sender's id, name and faction; the text
    sent is the first 200 characters of the text received, the whole text
    when it is no longer than that. *)
Theorem chat_is_truncated_and_broadcast :
  forall rs st playerId player text,
    map_get playerId (players st) = Some player ->
    exists sentText,
      handleChat rs st playerId text
      = (st,
         broadcast rs (players st)
                   (chat_event playerId (name player) (faction player)
                               sentText)
                   None) /\
      String.length sentText = Nat.min 200 (String.length text) /\
      prefix sentText text = true /\
      ((String.length text <= 200)%nat -> sentText = text) /\
      forall w,
        (exists k p, In (k, p) (players st) /\ ws p = Some w) ->
        rs w = OPEN ->
        In (w, chat_event playerId (name player) (faction player) sentText)
           (snd (handleChat rs st playerId text)).
Proof.
  intros rs st playerId player text Hget.
  exists (substring 0 200 text).
  unfold handleChat; rewrite Hget; cbn [snd].
  split; [reflexivity|].
  split; [apply substring_prefix_length|].
  split; [apply substring_is_prefix|].
  split; [apply substring_short|].
  intros w (k & p & Hin & Hws) Hopen.
  unfold broadcast; rewrite in_flat_map.
  exists (k, p); split; [assumption|].
  rewrite Hws; apply send_In; auto.
Qed.

Lemma chat_is_truncated_and_broadcast_witness :
  map_get aliceId (players aliceAndBob) = Some alice /\
  exists sentText,
    handleChat allOpen aliceAndBob aliceId "For Swadia!"
    = (aliceAndBob,
       broadcast allOpen (players aliceAndBob)
                 (chat_event aliceId (name alice) (faction alice) sentText)
                 None) /\
    String.length sentText = Nat.min 200 (String.length "For Swadia!").
Proof.
  assert (Ha : map_get aliceId (players aliceAndBob) = Some alice)
    by reflexivity.
  split; [exact Ha|].
  destruct (chat_is_truncated_and_broadcast allOpen aliceAndBob aliceId
              alice "For Swadia!" Ha) as (t & H1 & H2 & _).
  exists t; exact (conj H1 H2).
Defined.

(** ** Leaving *)

Lemma map_get_delete_other :
  forall k k' m, k <> k' -> map_get k' (map_delete k m) = map_get k' m.
Proof.
  intros k k' m Hne; induction m as [|[k0 q] m IH]; simpl; auto.
  destruct (k =? k0) eqn:E; simpl.
  - apply String.eqb_eq in E; subst k0.
    destruct (k' =? k) eqn:E'; auto.
    apply String.eqb_eq in E'; congruence.
  - now rewrite IH.
Qed.

Lemma map_get_delete_same :
  forall k m, NoDup (map_keys m) -> map_get k (map_delete k m) = None.
Proof.
  intros k m; induction m as [|[k0 q] m IH]; simpl; intros Hnd; auto.
  inversion Hnd as [|? ? Hnotin Hnd']; subst.
  destruct (k =? k0) eqn:E; simpl.
  - apply String.eqb_eq in E; subst k0.
    now apply map_get_None_keys.
  - rewrite E; auto.
Qed.

Lemma map_size_delete :
  forall k p m,
    map_get k m = Some p -> S (map_size (map_delete k m)) = map_size m.
Proof.
  intros k p m; induction m as [|[k0 q] m IH]; simpl; [discriminate|].
  destruct (k =? k0); simpl; intros H; [reflexivity|].
  unfold map_size in *; simpl; f_equal; auto.
Qed.

(** X16: when the connection of a registered player closes (the registry
    holding each id once), the player is removed and only that player:
    looking its id up finds nothing, every other id finds what it found
    before, the registry is one player smaller, the remaining players with
    an open connection are told [player_left], and a second close of the
    same session does nothing. *)
Theorem close_removes_the_player :
  forall rs st playerId p,
    NoDup (map_keys (players st)) ->
    map_get playerId (players st) = Some p ->
    let st' := fst (handleClose rs st playerId) in
    map_get playerId (players st') = None /\
    (forall k, k <> playerId ->
               map_get k (players st') = map_get k (players st)) /\
    S (map_size (players st')) = map_size (players st) /\
    snd (handleClose rs st playerId)
    = broadcast rs (players st') (player_left playerId) None /\
    handleClose rs st' playerId = (st', []).
Proof.
  intros rs st playerId p Hnd Hget st'; subst st'.
  assert (Hclose : handleClose rs st playerId
                   = (set_players st (map_delete playerId (players st)),
                      broadcast rs (map_delete playerId (players st))
                                (player_left playerId) None))
    by (unfold handleClose; rewrite Hget; reflexivity).
  rewrite Hclose; cbn [fst snd players set_players].
  assert (Hgone : map_get playerId (map_delete playerId (players st)) = None)
    by (apply map_get_delete_same; assumption).
  split; [exact Hgone|].
  split; [intros k Hk; apply map_get_delete_other; congruence|].
  split; [eapply map_size_delete; eassumption|].
  split; [reflexivity|].
  unfold handleClose; cbn [players set_players]; rewrite Hgone; reflexivity.
Qed.

Lemma close_removes_the_player_witness :
  NoDup (map_keys (players aliceAndBob)) /\
  map_get aliceId (players aliceAndBob) = Some alice /\
  map_get aliceId (players (fst (handleClose allOpen aliceAndBob aliceId)))
  = None.
Proof.
  assert (Hnd : NoDup (map_keys (players aliceAndBob))).
  { cbn; repeat constructor; simpl; intuition discriminate. }
  assert (Ha : map_get aliceId (players aliceAndBob) = Some alice)
    by reflexivity.
  split; [exact Hnd|]. split; [exact Ha|].
  exact (proj1 (close_removes_the_player allOpen aliceAndBob aliceId alice
                                         Hnd Ha)).
Defined.

(** ** Invariants of the reachable states *)

Lemma NoDup_keys_set :
  forall k p m, NoDup (map_keys m) -> NoDup (map_keys (map_set k p m)).
Proof.
  intros k p m Hnd.
  destruct (in_dec string_dec k (map_keys m)) as [Hin|Hout].
  - now rewrite map_set_present_keys.
  - rewrite map_keys_set_fresh by assumption.
    apply NoDup_app; [assumption | repeat constructor; simpl; tauto |].
    intros x Hx [<-|[]]; contradiction.
Qed.

Lemma map_keys_delete_incl :
  forall k m x, In x (map_keys (map_delete k m)) -> In x (map_keys m).
Proof.
  intros k m; induction m as [|[k0 q] m IH]; simpl; intros x; auto.
  destruct (k =? k0); simpl; intuition.
Qed.

Lemma NoDup_keys_delete :
  forall k m, NoDup (map_keys m) -> NoDup (map_keys (map_delete k m)).
Proof.
  intros k m; induction m as [|[k0 q] m IH]; simpl; intros Hnd; auto.
  inversion Hnd as [|? ? Hnotin Hnd']; subst.
  destruct (k =? k0); simpl; [assumption|].
  constructor; [|auto].
  intros Hin; apply Hnotin; eapply map_keys_delete_incl; eassumption.
Qed.

Lemma resolveBattle_keys :
  forall m attacker defender ra rd m' battle,
    resolveBattle m attacker defender ra rd = Some (m', battle) ->
    map_keys m' = map_keys m.
Proof.
  intros m attacker defender ra rd m' battle Hres.
  unfold resolveBattle in Hres.
  destruct (map_get attacker m) as [a|]; [|discriminate].
  destruct (map_get defender m) as [d|]; [|discriminate].
  destruct (getArmyPower (army a)); [|discriminate].
  destruct (getArmyPower (army d)); [|discriminate].
  inversion Hres; subst; now rewrite !map_keys_modify.
Qed.

Lemma step_keeps_keys_distinct :
  forall rs st e,
    NoDup (map_keys (players st)) ->
    NoDup (map_keys (players (fst (step rs st e)))).
Proof.
  intros rs st e Hnd.
  destruct e as [playerId message w r1 r2 | playerId | ]; cbn [step].
  - destruct message as [nm | x y | unitType n | targetId territoryId
                        | text | ty]; cbn [handleMessage].
    + unfold handleJoin; cbn [fst players set_players].
      now apply NoDup_keys_set.
    + unfold handleMove.
      destruct (map_get playerId (players st)); [|assumption].
      cbn [fst players set_players]; now apply NoDup_keys_set.
    + unfold handleRecruit.
      destruct (map_get playerId (players st)); [|assumption].
      destruct (UNIT_STATS unitType); [|assumption].
      destruct (js_lt _ _); [assumption|].
      cbn [fst players set_players]; now apply NoDup_keys_set.
    + unfold handleAttack.
      destruct (map_get playerId (players st)); [|assumption].
      destruct targetId as [target|]; [|assumption].
      destruct (target =? ""); [assumption|].
      destruct (map_get target (players st)); [|assumption].
      destruct (js_gt _ _); [assumption|].
      destruct (resolveBattle _ _ _ _ _) as [[m battle]|] eqn:E;
        [|assumption].
      cbn [fst players set_players].
      now rewrite (resolveBattle_keys _ _ _ _ _ _ _ E).
    + unfold handleChat.
      destruct (map_get playerId (players st)); assumption.
    + assumption.
  - unfold handleClose.
    destruct (map_get playerId (players st)); [|assumption].
    cbn [fst players set_players]; now apply NoDup_keys_delete.
  - unfold gameLoop; cbn [fst players].
    destruct (_ =? 0)%Z; [|assumption].
    unfold map_keys in *; rewrite map_map; cbn [fst]; assumption.
Qed.

Lemma addToExisting_utypes :
  forall t n army, map utype (addToExisting t n army) = map utype army.
Proof.
  intros t n army; induction army as [|u rest IH]; simpl; auto.
  destruct (utype u =? t); simpl; congruence.
Qed.

Lemma addToExisting_levels :
  forall t n army,
    Forall (fun u => level u = Fin 1) army ->
    Forall (fun u => level u = Fin 1) (addToExisting t n army).
Proof.
  intros t n army H; induction H as [|u rest Hu Hrest IH]; simpl;
    [constructor|].
  destruct (utype u =? t); constructor; auto.
Qed.

Lemma find_none_not_in :
  forall t army,
    find (fun u => utype u =? t) army = None -> ~ In t (map utype army).
Proof.
  intros t army Hfind Hin; apply in_map_iff in Hin.
  destruct Hin as (u & Hu & Hin).
  pose proof (find_none _ _ Hfind u Hin) as H; cbn in H.
  rewrite Hu, String.eqb_refl in H; discriminate.
Qed.

Lemma armyOk_recruitInto :
  forall t n army, armyOk army -> armyOk (recruitInto t n army).
Proof.
  intros t n army [Hnd Hlv]; unfold recruitInto.
  destruct (find _ army) eqn:E; split.
  - now rewrite addToExisting_utypes.
  - now apply addToExisting_levels.
  - rewrite map_app; apply NoDup_app;
      [assumption | repeat constructor; simpl; tauto |].
    intros x Hx [<-|[]]; revert Hx; now apply find_none_not_in.
  - apply Forall_app; split; [assumption | repeat constructor].
Qed.

Lemma armyOk_applyLosses :
  forall f army, armyOk army -> armyOk (applyLosses f army).
Proof.
  intros f army [Hnd Hlv]; unfold applyLosses; split.
  - now rewrite map_map.
  - apply Forall_map; cbn [level]; assumption.
Qed.

Lemma NoDup_map_filter :
  forall (A B : Type) (g : A -> B) (keep : A -> bool) l,
    NoDup (map g l) -> NoDup (map g (filter keep l)).
Proof.
  intros A B g keep l; induction l as [|a l IH]; simpl; intros H; auto.
  inversion H as [|? ? Hnotin Hnd]; subst.
  destruct (keep a); simpl; auto.
  constructor; auto.
  intros Hin; apply Hnotin.
  apply in_map_iff in Hin; destruct Hin as (x & <- & Hx).
  apply filter_In in Hx; apply in_map; tauto.
Qed.

Lemma armyOk_removeEmpty :
  forall army, armyOk army -> armyOk (removeEmpty army).
Proof.
  intros army [Hnd Hlv]; unfold removeEmpty; split.
  - now apply NoDup_map_filter.
  - rewrite Forall_forall in *; intros u Hu.
    apply filter_In in Hu; destruct Hu; auto.
Qed.

Lemma recordOk_same_identity :
  forall k p p',
    recordOk (k, p) ->
    identity p' = identity p ->
    statsDefined (army p') ->
    armyOk (army p') ->
    recordOk (k, p').
Proof.
  intros k p p' ((Hid & Hws & _) & _ & Hname & i & Hi & Hf & Hc) Hsame Hst Ha.
  unfold identity in Hsame; inversion Hsame as [[H1 H2 H3 H4 H5]].
  unfold recordOk, entryOk; cbn [fst snd] in *.
  rewrite H1, H2, H3, H4, H5.
  split; [repeat split; auto|].
  split; [assumption|]. split; [assumption|].
  exists i; auto.
Qed.

Lemma resolveBattle_recordOk :
  forall m attacker defender ra rd m' battle,
    Forall recordOk m ->
    resolveBattle m attacker defender ra rd = Some (m', battle) ->
    Forall recordOk m'.
Proof.
  intros m attacker defender ra rd m' battle Hm Hres.
  unfold resolveBattle in Hres.
  destruct (map_get attacker m) as [a|]; [|discriminate].
  destruct (map_get defender m) as [d|]; [|discriminate].
  destruct (getArmyPower (army a)); [|discriminate].
  destruct (getArmyPower (army d)); [|discriminate].
  inversion Hres; subst; clear Hres.
  assert (Harmy : forall k (f : list Unit -> list Unit),
             (forall l, statsDefined l -> statsDefined (f l)) ->
             (forall l, armyOk l -> armyOk (f l)) ->
             forall q, recordOk (k, q) ->
                       recordOk (k, with_army (f (army q)) q)).
  { intros k f Hf1 Hf2 q Hq.
    pose proof Hq as ((_ & _ & Hst) & Ha & _); cbn [snd] in Hst, Ha.
    apply (recordOk_same_identity _ q); auto; destruct q; cbn; auto. }
  assert (Hgold : forall k g q, recordOk (k, q) -> recordOk (k, with_gold g q)).
  { intros k g q Hq.
    pose proof Hq as ((_ & _ & Hst) & Ha & _); cbn [snd] in Hst, Ha.
    apply (recordOk_same_identity _ q); auto; destruct q; cbn; auto. }
  repeat (apply Forall_map_modify;
          [| intros q Hq;
             first
               [ apply Hgold; exact Hq
               | apply (Harmy _ (applyLosses _));
                 [apply statsDefined_applyLosses
                 | apply armyOk_applyLosses | exact Hq]
               | apply (Harmy _ removeEmpty);
                 [apply statsDefined_removeEmpty
                 | apply armyOk_removeEmpty | exact Hq] ]]).
  assumption.
Qed.

Lemma step_keeps_records_ok :
  forall rs st e,
    Forall recordOk (players st) ->
    Forall recordOk (players (fst (step rs st e))).
Proof.
  intros rs st e Hst.
  destruct e as [playerId message w r1 r2 | playerId | ]; cbn [step].
  - destruct message as [nm | x y | unitType n | targetId territoryId
                        | text | ty]; cbn [handleMessage].
    + unfold handleJoin; cbn [fst players set_players].
      apply Forall_map_set; [assumption|].
      unfold recordOk, entryOk, armyOk; cbn [fst snd player_id ws army name
                                             faction color].
      repeat split.
      * discriminate.
      * intros u [<-|[<-|[]]]; discriminate.
      * repeat constructor; simpl; intuition discriminate.
      * repeat constructor.
      * destruct (nm =? "") eqn:E; [discriminate|].
        now apply String.eqb_neq in E.
      * eexists; split; [apply Nat.mod_upper_bound; discriminate|].
        split; reflexivity.
    + unfold handleMove.
      destruct (map_get playerId (players st)) as [player|] eqn:E;
        [|assumption].
      cbn [fst players set_players].
      apply Forall_map_set; [assumption|].
      apply map_get_In in E; rewrite Forall_forall in Hst.
      pose proof (Hst _ E) as Hp.
      pose proof Hp as ((_ & _ & Hs) & Ha & _); cbn [snd] in Hs, Ha.
      apply (recordOk_same_identity _ player); auto;
        destruct player; cbn in *; auto.
    + unfold handleRecruit.
      destruct (map_get playerId (players st)) as [player|] eqn:E;
        [|assumption].
      destruct (UNIT_STATS unitType) as [stats|] eqn:Es; [|assumption].
      destruct (js_lt _ _); [assumption|].
      cbn [fst players set_players].
      apply Forall_map_set; [assumption|].
      apply map_get_In in E; rewrite Forall_forall in Hst.
      pose proof (Hst _ E) as Hp.
      pose proof Hp as ((_ & _ & Hs) & Ha & _); cbn [snd] in Hs, Ha.
      apply (recordOk_same_identity _ player);
        [assumption | destruct player; reflexivity | |];
        cbn [army with_army with_gold].
      * apply statsDefined_recruitInto; [congruence | assumption].
      * now apply armyOk_recruitInto.
    + unfold handleAttack.
      destruct (map_get playerId (players st)); [|assumption].
      destruct targetId as [target|]; [|assumption].
      destruct (target =? ""); [assumption|].
      destruct (map_get target (players st)); [|assumption].
      destruct (js_gt _ _); [assumption|].
      destruct (resolveBattle _ _ _ _ _) as [[m battle]|] eqn:E;
        [|assumption].
      cbn [fst players set_players].
      eapply resolveBattle_recordOk; eassumption.
    + unfold handleChat.
      destruct (map_get playerId (players st)); assumption.
    + assumption.
  - unfold handleClose.
    destruct (map_get playerId (players st)); [|assumption].
    cbn [fst players set_players]; now apply Forall_map_delete.
  - unfold gameLoop; cbn [fst players].
    destruct (_ =? 0)%Z; [|assumption].
    apply Forall_map; revert Hst; apply Forall_impl.
    intros [k p] H; exact H.
Qed.

Lemma step_keeps_territories :
  forall rs st e, territories (fst (step rs st e)) = territories st.
Proof.
  intros rs st e.
  destruct e as [playerId message w r1 r2 | playerId | ]; cbn [step].
  - destruct message as [nm | x y | unitType n | targetId territoryId
                        | text | ty]; cbn [handleMessage].
    + reflexivity.
    + unfold handleMove; destruct (map_get _ _); reflexivity.
    + unfold handleRecruit; destruct (map_get _ _); [|reflexivity].
      destruct (UNIT_STATS _); [|reflexivity].
      destruct (js_lt _ _); reflexivity.
    + unfold handleAttack; destruct (map_get _ _); [|reflexivity].
      destruct targetId as [target|]; [|reflexivity].
      destruct (target =? ""); [reflexivity|].
      destruct (map_get target _); [|reflexivity].
      destruct (js_gt _ _); [reflexivity|].
      destruct (resolveBattle _ _ _ _ _) as [[m battle]|]; reflexivity.
    + unfold handleChat; destruct (map_get _ _); reflexivity.
    + reflexivity.
  - unfold handleClose; destruct (map_get _ _); reflexivity.
  - reflexivity.
Qed.

(** X17: in every state the server can reach from its start, whatever the
    clients send, the registry holds each id once and every registered
    player is stored under its own id, has a connection and a non-empty
    name, and carries a faction and a colour of the same index; the
    territories are those of the start. *)
Theorem reachable_registry_is_consistent :
  forall rs ts st,
    reachable rs ts st ->
    NoDup (map_keys (players st)) /\
    territories st = ts /\
    forall k p,
      In (k, p) (players st) ->
      map_get k (players st) = Some p /\
      player_id p = k /\
      ws p <> None /\
      name p <> "" /\
      exists i,
        (i < 6)%nat /\
        faction p = nth i FACTIONS "" /\
        color p = nth i FACTION_COLORS "".
Proof.
  intros rs ts st H.
  assert (Hinv : NoDup (map_keys (players st)) /\
                 territories st = ts /\
                 Forall recordOk (players st)).
  { induction H as [|st e H (Hnd & Ht & Hrec)].
    - repeat split; constructor.
    - split; [now apply step_keeps_keys_distinct|].
      split; [now rewrite step_keeps_territories|].
      now apply step_keeps_records_ok. }
  destruct Hinv as (Hnd & Ht & Hrec).
  split; [exact Hnd|]. split; [exact Ht|].
  intros k p Hin; rewrite Forall_forall in Hrec.
  destruct (Hrec _ Hin) as ((Hid & Hws & _) & _ & Hname & Hfc).
  repeat split; auto.
  clear - Hnd Hin.
  induction (players st) as [|[k0 q] m IH]; simpl in *; [tauto|].
  inversion Hnd as [|? ? Hnotin Hnd']; subst.
  destruct Hin as [Heq|Hin].
  - inversion Heq; subst; now rewrite String.eqb_refl.
  - destruct (k =? k0) eqn:E; [|auto].
    apply String.eqb_eq in E; subst k0.
    exfalso; apply Hnotin; unfold map_keys.
    apply in_map_iff; exists (k, p); auto.
Qed.

(** X18: in every reachable state every army has at most one stack per
    unit type, every stack has level 1, and every unit type is a property
    of the stats table, so that [getArmyPower] returns a number for every
    registered army. *)
Theorem reachable_armies_are_well_formed :
  forall rs ts st,
    reachable rs ts st ->
    forall k p,
      In (k, p) (players st) ->
      NoDup (map utype (army p)) /\
      (forall u, In u (army p) -> level u = Fin 1) /\
      (forall u, In u (army p) -> UNIT_STATS (utype u) <> None) /\
      exists power, getArmyPower (army p) = Some power.
Proof.
  intros rs ts st H.
  assert (Hrec : Forall recordOk (players st)).
  { induction H as [|st e H IH]; [constructor|].
    now apply step_keeps_records_ok. }
  intros k p Hin; rewrite Forall_forall in Hrec.
  destruct (Hrec _ Hin) as ((_ & _ & Hst) & (Hnd & Hlv) & _).
  cbn [snd] in *; rewrite Forall_forall in Hlv.
  repeat split; auto.
  now apply getArmyPower_defined.
Qed.

Lemma reachable_registry_is_consistent_witness :
  reachable allOpen [] aliceAlone /\
  NoDup (map_keys (players aliceAlone)) /\
  territories aliceAlone = [].
Proof.
  assert (H : reachable allOpen [] aliceAlone)
    by exact (reachable_step allOpen [] (initialState [])
                (message_received aliceId (join "") 1%nat (1 / 2) (1 / 2))
                (reachable_start allOpen [])).
  split; [exact H|].
  pose proof (reachable_registry_is_consistent allOpen [] aliceAlone H)
    as (Hnd & Ht & _).
  exact (conj Hnd Ht).
Defined.

Lemma reachable_armies_are_well_formed_witness :
  reachable allOpen [] aliceAlone /\
  In (aliceId, alice) (players aliceAlone) /\
  NoDup (map utype (army alice)).
Proof.
  assert (H : reachable allOpen [] aliceAlone)
    by exact (reachable_step allOpen [] (initialState [])
                (message_received aliceId (join "") 1%nat (1 / 2) (1 / 2))
                (reachable_start allOpen [])).
  assert (Hin : In (aliceId, alice) (players aliceAlone))
    by (left; reflexivity).
  split; [exact H|]. split; [exact Hin|].
  exact (proj1 (reachable_armies_are_well_formed allOpen [] aliceAlone H
                                                  aliceId alice Hin)).
Defined.

Lemma Forall_map_modify_get :
  forall (P : string * Player -> Prop) k f m,
    Forall P m ->
    (forall q, map_get k m = Some q -> P (k, f q)) ->
    Forall P (map_modify k f m).
Proof.
  intros P k f m Hm Hf; unfold map_modify.
  destruct (map_get k m) as [q|] eqn:E; [|assumption].
  apply Forall_map_set; auto.
Qed.

Lemma resolveBattle_positions :
  forall m attacker defender ra rd m' battle,
    Forall (fun kp => placedOnMap (snd kp)) m ->
    resolveBattle m attacker defender ra rd = Some (m', battle) ->
    Forall (fun kp => placedOnMap (snd kp)) m'.
Proof.
  intros m attacker defender ra rd m' battle Hm Hres.
  unfold resolveBattle in Hres.
  destruct (map_get attacker m) as [a|]; [|discriminate].
  destruct (map_get defender m) as [d|]; [|discriminate].
  destruct (getArmyPower (army a)); [|discriminate].
  destruct (getArmyPower (army d)); [|discriminate].
  inversion Hres; subst; clear Hres.
  repeat (apply Forall_map_modify;
          [| intros q Hq; unfold placedOnMap in *;
             cbn [snd position with_army with_gold] in *; exact Hq]).
  assumption.
Qed.

(** X19: as long as every join draws its random values from [0, 1) and
    every move request carries finite coordinates, every registered player
    stays at a finite position on the map, whatever else happens (battles,
    recruitments, departures, timer runs, requests of any other kind). *)
Theorem finite_moves_keep_players_on_the_map :
  forall rs st0 st,
    Forall (fun kp => placedOnMap (snd kp)) (players st0) ->
    reachableVia rs finiteMoves st0 st ->
    forall k p,
      In (k, p) (players st) ->
      exists x y,
        position p = mkPosition (Fin x) (Fin y) /\
        0 <= x <= 100 /\ 0 <= y <= 100.
Proof.
  intros rs st0 st H0 Hrun.
  assert (Hinv : Forall (fun kp => placedOnMap (snd kp)) (players st)).
  { induction Hrun as [|st e Hrun IH Hok]; [assumption|].
    destruct e as [playerId message w r1 r2 | playerId | ]; cbn [step].
    - destruct message as [nm | x y | unitType n | targetId territoryId
                          | text | ty]; cbn [handleMessage].
      + unfold handleJoin; cbn [fst players set_players].
        apply Forall_map_set; [assumption|].
        cbn in Hok; destruct Hok as [Hr1 Hr2].
        exists (20 + r1 * 60), (20 + r2 * 60); cbn.
        split; [reflexivity | split; lra].
      + destruct Hok as [[tx ->] [ty ->]].
        unfold handleMove.
        destruct (map_get playerId (players st)) as [player|] eqn:E;
          [|assumption].
        cbn [fst players set_players].
        apply Forall_map_set; [assumption|].
        pose proof E as Hin; apply map_get_In in Hin.
        rewrite Forall_forall in IH.
        destruct (IH _ Hin) as (px & py & Hpos & _).
        cbn [snd] in Hpos.
        destruct (move_finite_stays_on_map rs st playerId player px py tx ty
                    E Hpos) as (p & Hp & Hx & Hy).
        unfold handleMove in Hp; rewrite E in Hp.
        cbn [fst players set_players] in Hp.
        rewrite map_get_set_same in Hp; inversion Hp; subst p; clear Hp.
        cbn [position with_position] in Hx, Hy.
        unfold placedOnMap; cbn [snd position with_position].
        destruct (clampToMap _) as [[cx| | |] [cy| | |]];
          unfold onMap, MAP_SIZE in Hx, Hy; cbn in Hx, Hy;
          try (destruct Hx; discriminate); try (destruct Hy; discriminate).
        exists cx, cy; split; [reflexivity|].
        destruct Hx as [Hx1 Hx2], Hy as [Hy1 Hy2].
        destruct (Rle_dec 0 cx), (Rle_dec cx 100), (Rle_dec 0 cy),
                 (Rle_dec cy 100); try discriminate; lra.
      + unfold handleRecruit.
        destruct (map_get playerId (players st)) as [player|] eqn:E;
          [|assumption].
        destruct (UNIT_STATS unitType); [|assumption].
        destruct (js_lt _ _); [assumption|].
        cbn [fst players set_players].
        apply Forall_map_set; [assumption|].
        apply map_get_In in E; rewrite Forall_forall in IH.
        exact (IH _ E).
      + unfold handleAttack.
        destruct (map_get playerId (players st)); [|assumption].
        destruct targetId as [target|]; [|assumption].
        destruct (target =? ""); [assumption|].
        destruct (map_get target (players st)); [|assumption].
        destruct (js_gt _ _); [assumption|].
        destruct (resolveBattle _ _ _ _ _) as [[m battle]|] eqn:E;
          [|assumption].
        cbn [fst players set_players].
        eapply resolveBattle_positions; eassumption.
      + unfold handleChat.
        destruct (map_get playerId (players st)); assumption.
      + assumption.
    - unfold handleClose.
      destruct (map_get playerId (players st)); [|assumption].
      cbn [fst players set_players]; now apply Forall_map_delete.
    - unfold gameLoop; cbn [fst players].
      destruct (_ =? 0)%Z; [|assumption].
      apply Forall_map; revert IH; apply Forall_impl.
      intros [k p] H; exact H. }
  intros k p Hin; rewrite Forall_forall in Hinv.
  exact (Hinv _ Hin).
Qed.

Lemma finite_moves_keep_players_on_the_map_witness :
  Forall (fun kp => placedOnMap (snd kp)) (players (initialState [])) /\
  reachableVia allOpen finiteMoves (initialState []) aliceAlone /\
  forall k p,
    In (k, p) (players aliceAlone) ->
    exists x y,
      position p = mkPosition (Fin x) (Fin y) /\
      0 <= x <= 100 /\ 0 <= y <= 100.
Proof.
  assert (H0 : Forall (fun kp => placedOnMap (snd kp))
                      (players (initialState [])))
    by constructor.
  assert (Hok : finiteMoves
                  (message_received aliceId (join "") 1%nat (1 / 2) (1 / 2)))
    by (cbn; lra).
  assert (Hrun : reachableVia allOpen finiteMoves (initialState []) aliceAlone)
    by exact (via_step allOpen finiteMoves (initialState [])
                (initialState [])
                (message_received aliceId (join "") 1%nat (1 / 2) (1 / 2))
                (via_start allOpen finiteMoves (initialState [])) Hok).
  split; [exact H0|]. split; [exact Hrun|].
  exact (finite_moves_keep_players_on_the_map
           allOpen (initialState []) aliceAlone H0 Hrun).
Defined.

Lemma UNIT_STATS_own :
  forall t stats,
    UNIT_STATS t = Some stats ->
    ~ In t Object_prototype_keys ->
    exists a d v c, stats = stats_entry a d v c /\ 0 < c.
Proof.
  intros t stats H Hp; unfold UNIT_STATS in H.
  destruct (t =? "infantry");
    [inversion H; do 4 eexists; split; [reflexivity | lra]|].
  destruct (t =? "archer");
    [inversion H; do 4 eexists; split; [reflexivity | lra]|].
  destruct (t =? "cavalry");
    [inversion H; do 4 eexists; split; [reflexivity | lra]|].
  destruct (mem_string t Object_prototype_keys) eqn:E; [|discriminate].
  exfalso; apply Hp.
  unfold mem_string in E; apply existsb_exists in E.
  destruct E as (k & Hin & Heq); apply String.eqb_eq in Heq; now subst.
Qed.

Lemma payIncome_solvent :
  forall ts p, incomesOk ts -> solvent p -> solvent (payIncome ts p).
Proof.
  intros ts p Hts (g & Hg & Hg0); unfold solvent, payIncome.
  cbn [gold with_gold]; rewrite Hg; cbn [js_add].
  assert (Hfold : forall g0, 0 <= g0 ->
            exists g', fold_left
                         (fun acc t =>
                            if owns t p
                            then js_add acc (js_div (income t) (Fin 10))
                            else acc)
                         ts (Fin g0) = Fin g' /\ 0 <= g').
  { induction Hts as [|t ts (i & Hi & Hi0) Hts IH]; intros g0 H0; simpl.
    - eauto.
    - destruct (owns t p); [|auto].
      rewrite Hi; cbn.
      destruct (Req_dec_T 10 0); [lra|].
      cbn; apply IH.
      lra. }
  apply Hfold; lra.
Qed.

Lemma floor_of_share :
  forall gl, 0 <= gl ->
    exists l, Math_floor (js_mul (Fin gl) (Fin (3 / 10))) = Fin l /\
              0 <= l <= gl.
Proof.
  intros gl Hgl; eexists; split; [reflexivity|].
  apply floor_share_bounds; assumption.
Qed.

Lemma resolveBattle_solvent :
  forall m attacker defender ra rd m' battle,
    Forall (fun kp => solvent (snd kp)) m ->
    resolveBattle m attacker defender ra rd = Some (m', battle) ->
    Forall (fun kp => solvent (snd kp)) m'.
Proof.
  intros m attacker defender ra rd m' battle Hm Hres.
  unfold resolveBattle in Hres.
  destruct (map_get attacker m) as [a|] eqn:Ha; [|discriminate].
  destruct (map_get defender m) as [d|] eqn:Hd; [|discriminate].
  destruct (getArmyPower (army a)) as [pa|]; [|discriminate].
  destruct (getArmyPower (army d)) as [pd|]; [|discriminate].
  inversion Hres; subst; clear Hres.
  set (wid := if js_gt (randomize pa ra) (randomize pd rd)
              then attacker else defender).
  set (lid := if js_gt (randomize pa ra) (randomize pd rd)
              then defender else attacker).
  set (ratio := battleRatio (randomize pa ra) (randomize pd rd)).
  set (m4 := map_modify lid _ (map_modify wid _ (map_modify lid _
               (map_modify wid _ m)))).
  assert (H4 : Forall (fun kp => solvent (snd kp)) m4).
  { unfold m4.
    repeat (apply Forall_map_modify;
            [| intros q Hq; unfold solvent in *;
               cbn [snd gold with_army] in *; exact Hq]).
    assumption. }
  assert (Hl : exists ql, map_get lid m4 = Some ql).
  { assert (Hl0 : exists q, map_get lid m = Some q)
      by (unfold lid; destruct (js_gt _ _); eauto).
    destruct Hl0 as [q Hq]; unfold m4.
    rewrite !map_get_modify, Hq.
    repeat (destruct (_ =? lid); cbn [option_map]); eauto. }
  destruct Hl as [ql Hql].
  assert (Hsl : solvent ql).
  { rewrite Forall_forall in H4.
    exact (H4 _ (map_get_In _ _ _ Hql)). }
  destruct Hsl as (gl & Hgl & Hgl0).
  unfold gold_of; rewrite Hql, Hgl.
  destruct (floor_of_share gl Hgl0) as (l & -> & Hl0 & Hl1).
  apply Forall_map_modify_get.
  - apply Forall_map_modify; [exact H4|].
    intros q (g & Hg & Hg0); cbn [snd] in Hg.
    exists (g + l); cbn [snd gold with_gold].
    rewrite Hg; split; [reflexivity | lra].
  - intros q Hq; rewrite map_get_modify, Hql in Hq.
    destruct (wid =? lid); cbn [option_map] in Hq; inversion Hq; subst q;
      unfold solvent; cbn [snd gold with_gold]; rewrite Hgl; cbn.
    + eexists; split; [reflexivity | lra].
    + eexists; split; [reflexivity | lra].
Qed.

(** X20: from a start with an empty registry, as long as every recruit
    request carries a finite count that is not negative and a unit type
    that is not a member of [Object.prototype], and the territories'
    incomes lie between 0 and 1000 (as the generated ones do), the gold of
    every registered player stays a finite, non-negative amount, whatever
    else happens: a recruitment is only accepted when it can be paid, a
    battle takes at most what the loser has, and the timer only adds. *)
Theorem gold_is_never_negative :
  forall rs st0 st,
    incomesOk (territories st0) ->
    players st0 = [] ->
    reachableVia rs plainRecruits st0 st ->
    forall k p,
      In (k, p) (players st) -> exists g, gold p = Fin g /\ 0 <= g.
Proof.
  intros rs st0 st Hts Hempty Hrun.
  assert (H0 : Forall (fun kp => solvent (snd kp)) (players st0))
    by (rewrite Hempty; constructor).
  assert (Hinv : territories st = territories st0 /\
                 Forall (fun kp => solvent (snd kp)) (players st)).
  { induction Hrun as [|st e Hrun [IHt IH] Hok]; [auto|].
    split; [now rewrite step_keeps_territories|].
    destruct e as [playerId message w r1 r2 | playerId | ]; cbn [step].
    - destruct message as [nm | x y | unitType n | targetId territoryId
                          | text | ty]; cbn [handleMessage].
      + unfold handleJoin; cbn [fst players set_players].
        apply Forall_map_set; [assumption|].
        exists 1000; cbn; split; [reflexivity | lra].
      + unfold handleMove.
        destruct (map_get playerId (players st)) as [player|] eqn:E;
          [|assumption].
        cbn [fst players set_players].
        apply Forall_map_set; [assumption|].
        apply map_get_In in E; rewrite Forall_forall in IH.
        exact (IH _ E).
      + destruct Hok as [(c & -> & _) Hproto].
        unfold handleRecruit.
        destruct (map_get playerId (players st)) as [player|] eqn:E;
          [|assumption].
        destruct (UNIT_STATS unitType) as [stats|] eqn:Es; [|assumption].
        destruct (UNIT_STATS_own _ _ Es Hproto) as (a & d & v & price & -> & _).
        apply map_get_In in E; rewrite Forall_forall in IH.
        destruct (IH _ E) as (g & Hg & Hg0); cbn [snd] in Hg.
        rewrite Hg; cbn [cost js_mul js_lt].
        destruct (Rlt_dec g (price * c)) as [Hlt|Hge];
          [rewrite Forall_forall; assumption|].
        cbn [fst players set_players].
        apply Forall_map_set; [rewrite Forall_forall; assumption|].
        exists (g - price * c); cbn; split; [reflexivity | lra].
      + unfold handleAttack.
        destruct (map_get playerId (players st)); [|assumption].
        destruct targetId as [target|]; [|assumption].
        destruct (target =? ""); [assumption|].
        destruct (map_get target (players st)); [|assumption].
        destruct (js_gt _ _); [assumption|].
        destruct (resolveBattle _ _ _ _ _) as [[m battle]|] eqn:E;
          [|assumption].
        cbn [fst players set_players].
        eapply resolveBattle_solvent; eassumption.
      + unfold handleChat.
        destruct (map_get playerId (players st)); assumption.
      + assumption.
    - unfold handleClose.
      destruct (map_get playerId (players st)); [|assumption].
      cbn [fst players set_players]; now apply Forall_map_delete.
    - unfold gameLoop; cbn [fst players].
      destruct (_ =? 0)%Z; [|assumption].
      apply Forall_map; revert IH; apply Forall_impl.
      intros [k p] H; cbn [snd] in *.
      apply payIncome_solvent; [rewrite IHt|]; assumption. }
  intros k p Hin; destruct Hinv as [_ Hinv].
  rewrite Forall_forall in Hinv; exact (Hinv _ Hin).
Qed.

Lemma gold_is_never_negative_witness :
  incomesOk (territories (initialState [])) /\
  players (initialState []) = [] /\
  plainRecruits (message_received aliceId (recruit "cavalry" (Fin 2)) 1%nat 0 0) /\
  reachableVia allOpen plainRecruits (initialState [])
    (fst (step allOpen aliceAlone
            (message_received aliceId (recruit "cavalry" (Fin 2)) 1%nat 0 0))) /\
  forall k p,
    In (k, p)
       (players
          (fst (step allOpen aliceAlone
                  (message_received aliceId (recruit "cavalry" (Fin 2))
                                    1%nat 0 0)))) ->
    exists g, gold p = Fin g /\ 0 <= g.
Proof.
  assert (Hts : incomesOk (territories (initialState []))) by constructor.
  assert (H0 : players (initialState []) = []) by reflexivity.
  assert (Hok : plainRecruits
                  (message_received aliceId (recruit "cavalry" (Fin 2))
                                    1%nat 0 0)).
  { split; [exists 2; split; [reflexivity | lra]|].
    unfold Object_prototype_keys; simpl.
    intros H; repeat (destruct H as [H|H]; [discriminate|]); exact H. }
  assert (Hjoin : reachableVia allOpen plainRecruits (initialState [])
                               aliceAlone)
    by exact (via_step allOpen plainRecruits (initialState [])
                (initialState [])
                (message_received aliceId (join "") 1%nat (1 / 2) (1 / 2))
                (via_start allOpen plainRecruits (initialState [])) I).
  assert (Hrun : reachableVia allOpen plainRecruits (initialState [])
                   (fst (step allOpen aliceAlone
                           (message_received aliceId
                              (recruit "cavalry" (Fin 2)) 1%nat 0 0))))
    by exact (via_step allOpen plainRecruits (initialState []) aliceAlone
                _ Hjoin Hok).
  split; [exact Hts|]. split; [exact H0|]. split; [exact Hok|].
  split; [exact Hrun|].
  exact (gold_is_never_negative allOpen (initialState []) _ Hts H0 Hrun).
Defined.

(** ** Unchecked counts *)





(** ** Army power and speed *)

Lemma unit_strength_own :
  forall t,
    In t ["infantry"; "archer"; "cavalry"] ->
    exists a d v c,
      UNIT_STATS t = Some (stats_entry a d v c) /\ 20 <= a + d.
Proof.
  intros t [<-|[<-|[<-|[]]]]; do 4 eexists; (split; [reflexivity | lra]).
Qed.

Lemma getArmyPower_from :
  forall army acc,
    0 <= acc ->
    (forall u, In u army ->
       In (utype u) ["infantry"; "archer"; "cavalry"] /\
       exists c l, count u = Fin c /\ level u = Fin l /\ 0 <= c /\ 0 <= l) ->
    exists p,
      fold_left
        (fun total unit =>
           match total, UNIT_STATS (utype unit) with
           | Some t, Some stats =>
               Some (js_add t
                       (js_mul (js_mul (js_add (attack stats) (defense stats))
                                       (count unit))
                               (level unit)))
           | _, _ => None
           end)
        army (Some (Fin acc)) = Some (Fin p) /\
      acc <= p /\
      ((exists u c l, In u army /\ count u = Fin c /\ level u = Fin l /\
                      0 < c /\ 0 < l) -> acc < p).
Proof.
  intros army; induction army as [|u rest IH]; intros acc Hacc Hok.
  - exists acc; simpl; split; [reflexivity|]; split; [lra|].
    intros (u & c & l & [] & _).
  - destruct (Hok u (or_introl eq_refl)) as (Ht & c & l & Hc & Hl & Hc0 & Hl0).
    destruct (unit_strength_own _ Ht) as (a & d & v & cst & Hs & Had).
    cbn [fold_left]; rewrite Hs, Hc, Hl; cbn [attack defense js_add js_mul].
    assert (Hterm : 0 <= (a + d) * c * l) by (apply Rmult_le_pos; nra).
    destruct (IH (acc + (a + d) * c * l) ltac:(lra)
                 (fun u' Hu' => Hok u' (or_intror Hu')))
      as (p & Hp & Hle & Hlt).
    exists p; split; [exact Hp|]; split; [lra|].
    intros (u' & c' & l' & [<-|Hin] & Hc' & Hl' & Hc'0 & Hl'0).
    + rewrite Hc in Hc'; rewrite Hl in Hl'.
      inversion Hc'; inversion Hl'; subst c' l'.
      assert (0 < (a + d) * c * l) by (repeat apply Rmult_lt_0_compat; lra).
      lra.
    + assert (acc + (a + d) * c * l < p) by (apply Hlt; eauto 10).
      lra.
Qed.

(** X22: the power of an army whose stacks are of the three unit types,
    at level 1, with finite counts that are not negative, is a number that
    is neither [NaN] nor negative; it is 0 for the empty army and strictly
    positive as soon as one stack has a positive count. *)
Theorem sane_army_has_nonnegative_power :
  forall army,
    (forall u, In u army ->
       In (utype u) ["infantry"; "archer"; "cavalry"] /\
       level u = Fin 1 /\
       exists c, count u = Fin c /\ 0 <= c) ->
    exists power,
      getArmyPower army = Some power /\
      js_le (Fin 0) power = true /\
      (army = [] -> power = Fin 0) /\
      ((exists u, In u army /\ js_gt (count u) (Fin 0) = true) ->
       js_gt power (Fin 0) = true).
Proof.
  intros army Hok.
  assert (Hok' : forall u, In u army ->
            In (utype u) ["infantry"; "archer"; "cavalry"] /\
            exists c l, count u = Fin c /\ level u = Fin l /\ 0 <= c /\ 0 <= l).
  { intros u Hu; destruct (Hok u Hu) as (Ht & Hl & c & Hc & Hc0).
    split; [exact Ht|]; exists c, 1; repeat split; auto; lra. }
  destruct (getArmyPower_from army 0 ltac:(lra) Hok') as (p & Hp & Hle & Hlt).
  exists (Fin p); unfold getArmyPower; split; [exact Hp|].
  split; [cbn; rdec; reflexivity|].
  split; [intros ->; simpl in Hp; inversion Hp; reflexivity|].
  intros (u & Hu & Hpos).
  destruct (Hok u Hu) as (_ & Hl & c & Hc & _).
  assert (Hc0 : 0 < c).
  { rewrite Hc in Hpos; unfold js_gt in Hpos; cbn in Hpos.
    destruct (Rlt_dec 0 c); [assumption | discriminate]. }
  assert (0 < p) by (apply Hlt; exists u, c, 1; repeat split; auto; lra).
  unfold js_gt; cbn; rdec; reflexivity.
Qed.

Lemma sane_army_has_nonnegative_power_witness :
  (forall u, In u (army alice) ->
     In (utype u) ["infantry"; "archer"; "cavalry"] /\
     level u = Fin 1 /\
     exists c, count u = Fin c /\ 0 <= c) /\
  exists power,
    getArmyPower (army alice) = Some power /\ js_le (Fin 0) power = true.
Proof.
  assert (H : forall u, In u (army alice) ->
                In (utype u) ["infantry"; "archer"; "cavalry"] /\
                level u = Fin 1 /\
                exists c, count u = Fin c /\ 0 <= c).
  { intros u [<-|[<-|[]]]; (split; [simpl; auto|]); (split; [reflexivity|]);
      eexists; (split; [reflexivity|]); lra. }
  split; [exact H|].
  destruct (sane_army_has_nonnegative_power (army alice) H)
    as (power & Hp & Hp0 & _).
  exists power; exact (conj Hp Hp0).
Defined.

(** X23: an army moves at speed 2 exactly when it is empty or holds a
    cavalry stack with a positive count, and at speed 1 otherwise; so the
    movement budget of a request is 5 or 10, and an empty army is as fast
    as cavalry. *)
Theorem speed_is_two_for_cavalry_or_nothing :
  forall army,
    (getArmySpeed army = Fin 2 <->
     army = [] \/
     exists u, In u army /\ utype u = "cavalry" /\
               js_gt (count u) (Fin 0) = true) /\
    (getArmySpeed army = Fin 1 \/ getArmySpeed army = Fin 2).
Proof.
  intros army; split; [|apply getArmySpeed_cases].
  destruct army as [|u0 rest]; [split; auto|].
  unfold getArmySpeed.
  destruct (existsb _ (u0 :: rest)) eqn:E.
  - split; [|reflexivity]; intros _; right.
    apply existsb_exists in E; destruct E as (u & Hu & Hc).
    apply andb_true_iff in Hc; destruct Hc as [Ht Hc].
    apply String.eqb_eq in Ht; eauto.
  - split.
    + intros H; inversion H; lra.
    + intros [H|(u & Hu & Ht & Hc)]; [discriminate|].
      exfalso.
      assert (Hex : existsb
                      (fun u => (utype u =? "cavalry")
                                && js_gt (count u) (Fin 0))
                      (u0 :: rest) = true).
      { apply existsb_exists; exists u; split; [assumption|].
        rewrite Ht, Hc; reflexivity. }
      rewrite Hex in E; discriminate.
Qed.

(** ** What the timer sends *)

(** X24: every message of a timer run goes to the open connection of a
    registered player and is either that player's [gold_update] with its
    gold after the payout, on a run that reaches a multiple of 60, or the
    snapshot of all sanitized players, on a run that reaches a multiple of
    10; a run that reaches no multiple of 10 sends nothing and changes no
    player. *)
Theorem timer_sends_updates_and_snapshots :
  forall rs st,
    (forall w msg,
        In (w, msg) (snd (gameLoop rs st)) ->
        rs w = OPEN /\
        exists k p,
          In (k, p) (players (fst (gameLoop rs st))) /\
          ws p = Some w /\
          ((msg = gold_update (gold p) /\
            (tick (fst (gameLoop rs st)) mod 60 = 0)%Z) \/
           (msg = tick_snapshot
                    (map sanitizePlayer
                         (map_values (players (fst (gameLoop rs st))))) /\
            (tick (fst (gameLoop rs st)) mod 10 = 0)%Z))) /\
    (((tick st + 1) mod 10 <> 0)%Z ->
     gameLoop rs st
     = (mkGameState (players st) (territories st) (tick st + 1), [])).
Proof.
  intros rs st; split.
  - intros w msg Hin; unfold gameLoop in *; cbn [fst snd players tick] in *.
    apply in_app_or in Hin; destruct Hin as [Hin|Hin].
    + destruct ((tick st + 1) mod 60 =? 0)%Z eqn:E; [|destruct Hin].
      apply in_flat_map in Hin; destruct Hin as ([k p] & Hkp & Hin).
      cbn [snd] in Hin.
      destruct (ws p) as [w0|] eqn:Hws; [|destruct Hin].
      apply send_In in Hin; destruct Hin as (-> & -> & Hopen).
      split; [assumption|]; exists k, p; repeat split; auto.
      left; split; [reflexivity | now apply Z.eqb_eq].
    + destruct ((tick st + 1) mod 10 =? 0)%Z eqn:E; [|destruct Hin].
      apply broadcast_from_registry in Hin.
      destruct Hin as (-> & Hopen & k & p & Hkp & Hws & _).
      split; [assumption|]; exists k, p; repeat split; auto.
      right; split; [reflexivity | now apply Z.eqb_eq].
  - intros Hquiet; unfold gameLoop.
    assert (H60 : ((tick st + 1) mod 60 <> 0)%Z).
    { intros H; apply Hquiet.
      rewrite (Z.div_mod (tick st + 1) 60) by lia.
      rewrite H, Z.add_0_r.
      replace (60 * ((tick st + 1) / 60))%Z
        with (((tick st + 1) / 60 * 6) * 10)%Z by lia.
      apply Z.mod_mul; lia. }
    apply Z.eqb_neq in Hquiet, H60; rewrite Hquiet, H60; reflexivity.
Qed.

Lemma timer_sends_updates_and_snapshots_witness :
  ((tick aliceAlone + 1) mod 10 <> 0)%Z /\
  gameLoop allOpen aliceAlone
  = (mkGameState (players aliceAlone) (territories aliceAlone)
                 (tick aliceAlone + 1), []).
Proof.
  assert (H : ((tick aliceAlone + 1) mod 10 <> 0)%Z) by (cbn; lia).
  split; [exact H|].
  exact (proj2 (timer_sends_updates_and_snapshots allOpen aliceAlone) H).
Defined.
